(** * TICooperator: a shallow embedding of the S2E plugin and its properties

    The plugin hooks the engine's fork-decision, timer and shutdown events.
    Two revisions of [TICooperator.cpp] are embedded:
    - [Rev1], the address-only revision: [retAddr] is a
      [std::vector<size_t>], the tolerance test is symmetric ([abs]) and the
      condition is evaluated before the registry is searched;
    - [Rev2], the revision with correlation ids: [retAddr] holds
      [(address, id)] pairs, the tolerance test is forward only, the
      registry is searched first, and [isStepped] records the sites reached.

    The engine (klee / S2E) is external: its operations are the fields of the
    class [Engine]; the objects it owns are kept in an explicit store. *)

From Stdlib Require Import ZArith QArith Lia List String Ascii Bool.
From stdpp Require Import base gmap sets list strings.

Local Open Scope Z_scope.

(** ** Machine integers *)

(** [unsigned int] arithmetic: the three counters and the shutdown tallies. *)
Definition wrap32 (z : Z) : Z := z mod 2 ^ 32.

(** [uint64_t] / [size_t] arithmetic: program counters and site addresses. *)
Definition wrap64 (z : Z) : Z := z mod 2 ^ 64.

(** The cast [(long long) x] of a 64-bit unsigned value. *)
Definition toLongLong (z : Z) : Z :=
  let u := wrap64 z in if u <? 2 ^ 63 then u else u - 2 ^ 64.

(** [x++] on an [unsigned int]. *)
Definition incr32 (z : Z) : Z := wrap32 (z + 1).

(** [a - b] on two [uint64_t]. *)
Definition sub64 (a b : Z) : Z := wrap64 (a - b).

(** [abs] on a [long long]; the difference it is applied to is computed in
    [long long] as well. *)
Definition llabs (z : Z) : Z := toLongLong (Z.abs z).

(** ** Outcomes of a callback

    [check], [assert] and [abort] end the process; a callback either returns
    or is fatal. *)

Inductive Failure : Type :=
| AssertionFailed      (* assert(!state->isRunningConcrete()) *)
| CheckFailed          (* check(ce, "Could not evaluate the expression to a constant.") *)
| AbortCalled          (* abort() after a rejected addConstraint *)
| InvalidAccess.       (* a pointer or an index outside what the engine handed over *)

Inductive Result (A : Type) : Type :=
| Returns (a : A)
| Fatal (why : Failure).
Arguments Returns {A} a.
Arguments Fatal {A} why.

(** Sequencing: a fatal callback runs nothing after it. With these
    instances [x ← r; k] is sequencing and [mret] is [Returns]. *)
#[global] Instance Result_ret : MRet Result := fun A a => Returns a.
#[global] Instance Result_bind : MBind Result := fun A B k r =>
  match r with
  | Returns a => k a
  | Fatal why => Fatal why
  end.

(** ** The engine's data (klee / S2E), as far as the plugin touches it *)

(** Expressions. [dyn_cast<ConstantExpr>] is a match on the constructor. *)
Inductive Expr : Type :=
| ConstantExpr (value : Z) (width : N)
| ReadExpr (array : string) (index : Z)
| NotExpr (e : Expr)
| EqExpr (l r : Expr)
| UltExpr (l r : Expr).

(** [Expr::Bool] is the width 1. *)
Definition ExprBool : N := 1%N.

Fixpoint getWidth (e : Expr) : N :=
  match e with
  | ConstantExpr _ w => w
  | ReadExpr _ _ => 8%N
  | NotExpr e => getWidth e
  | EqExpr _ _ | UltExpr _ _ => ExprBool
  end.

Definition isConstantExpr (e : Expr) : bool :=
  match e with ConstantExpr _ _ => true | _ => false end.

(** [ConstantExpr::isTrue]: a Boolean constant of value 1. *)
Definition isTrue (value : Z) (width : N) : bool :=
  (width =? ExprBool)%N && (value =? 1).

(** Modelled from the spec: [Expr::createIsZero] belongs to klee and is not
    in the repository; the spec calls its result "condition is false", the
    comparison of the condition with the zero of its width. *)
Definition createIsZero (e : Expr) : Expr :=
  EqExpr (ConstantExpr 0 (getWidth e)) e.

(** A symbolic object ([klee::Array]) is named; an [Assignment] binds
    objects to concrete bytes. *)
Definition ArrayVec : Type := list string.
Abbreviation Assignment := (gmap string (list Byte.byte)).

(** The fields of an execution state that the plugin reads or that its
    clone changes. *)
Record ExecutionState : Type := {
  getID : Z;
  getPc : Z;
  constraints : list Expr;
  concolics : Assignment;
  symbolics : ArrayVec;
  isRunningConcrete : bool
}.

Definition set_ID (id : Z) (s : ExecutionState) : ExecutionState :=
  {| getID := id; getPc := getPc s; constraints := constraints s;
     concolics := concolics s; symbolics := symbolics s;
     isRunningConcrete := isRunningConcrete s |}.

Definition set_concolics (a : Assignment) (s : ExecutionState) : ExecutionState :=
  {| getID := getID s; getPc := getPc s; constraints := constraints s;
     concolics := a; symbolics := symbolics s;
     isRunningConcrete := isRunningConcrete s |}.

Definition set_constraints (c : list Expr) (s : ExecutionState) : ExecutionState :=
  {| getID := getID s; getPc := getPc s; constraints := c;
     concolics := concolics s; symbolics := symbolics s;
     isRunningConcrete := isRunningConcrete s |}.

(** A [klee::Query]: a constraint set and the expression asked about. *)
Record Query : Type := { q_constraints : list Expr; q_expr : Expr }.

(** The engine operations the plugin calls. None of them is in the
    repository; they are left abstract, as functions of what they are given:
    simplifying, evaluating and solving read the state and do not write it.
    - [simplifyExpr]: [state->simplifyExpr(e)];
    - [evaluate]: [state->concolics->evaluate(e)];
    - [getInitialValues]: the solver; [None] is the [false] return, [Some]
      carries the bytes written to [concreteObjects];
    - [addConstraint]: the return value of [state->addConstraint(e)]. *)
Class Engine : Type := {
  simplifyExpr : ExecutionState -> Expr -> Expr;
  evaluate : Assignment -> Expr -> Expr;
  getInitialValues : Query -> ArrayVec -> option (list (list Byte.byte));
  addConstraint : ExecutionState -> Expr -> bool
}.

(** A call [generateTestCases(state, label, TC_FILE)] on the
    [TestCaseGenerator] plugin. The label is kept as the arguments of its
    format: [/id:%06u] in [Rev1], [/id:%06u-%lx-%u] in [Rev2]. *)
Record TestCaseRequest : Type := {
  tc_state : ExecutionState;
  tc_id : Z;
  tc_site : option (Z * Z)
}.

(** Lines of [Solving.stats]. *)
Inductive StatLine : Type :=
| StatRow (userTime : Q) (solved unsolved total : Z)
| SummaryRow (userTime : Q) (solvedBranch failedBranch : Z) (sites : Z).

(** A [std::ofstream]: what has been written but not flushed, and what has
    reached the file. *)
Record ofstream : Type := {
  pending : list StatLine;
  flushed : list StatLine;
  is_open : bool
}.

Definition ofs_new : ofstream :=
  {| pending := []; flushed := []; is_open := true |}.

Definition ofs_write (l : StatLine) (o : ofstream) : ofstream :=
  {| pending := pending o ++ [l]; flushed := flushed o; is_open := is_open o |}.

Definition ofs_flush (o : ofstream) : ofstream :=
  {| pending := []; flushed := flushed o ++ pending o; is_open := is_open o |}.

Definition ofs_close (o : ofstream) : ofstream :=
  {| pending := []; flushed := flushed o ++ pending o; is_open := false |}.

(** Messages on the engine's debug and warning streams. *)
Inductive Message : Type :=
| MsgStatistics (solved unsolved total : Z)
| MsgUnableToOpen
| MsgMismatchedSize
| MsgCouldNotRead
| MsgUnknownCommand (command : Z).

(** Everything outside the plugin object: the execution states the engine
    has allocated (by address), its state-id counter, and the calls the
    plugin has made on the engine and on the test-case generator. *)
Record World : Type := {
  heap : gmap positive ExecutionState;
  lastStateID : Z;
  testCases : list TestCaseRequest;
  terminated : list (option positive * string);
  messages : list Message;
  failedStats : option (list (Z * Z))
}.

Definition set_heap (h : gmap positive ExecutionState) (w : World) : World :=
  {| heap := h; lastStateID := lastStateID w; testCases := testCases w;
     terminated := terminated w; messages := messages w;
     failedStats := failedStats w |}.

Definition set_lastStateID (n : Z) (w : World) : World :=
  {| heap := heap w; lastStateID := n; testCases := testCases w;
     terminated := terminated w; messages := messages w;
     failedStats := failedStats w |}.

Definition add_testCase (r : TestCaseRequest) (w : World) : World :=
  {| heap := heap w; lastStateID := lastStateID w;
     testCases := testCases w ++ [r];
     terminated := terminated w; messages := messages w;
     failedStats := failedStats w |}.

Definition add_terminated (t : option positive * string) (w : World) : World :=
  {| heap := heap w; lastStateID := lastStateID w; testCases := testCases w;
     terminated := terminated w ++ [t]; messages := messages w;
     failedStats := failedStats w |}.

Definition add_message (m : Message) (w : World) : World :=
  {| heap := heap w; lastStateID := lastStateID w; testCases := testCases w;
     terminated := terminated w; messages := messages w ++ [m];
     failedStats := failedStats w |}.

Definition set_failedStats (f : option (list (Z * Z))) (w : World) : World :=
  {| heap := heap w; lastStateID := lastStateID w; testCases := testCases w;
     terminated := terminated w; messages := messages w;
     failedStats := f |}.

(** Modelled from the spec: [S2EExecutionState::clone] belongs to the engine
    and is not in the repository. The spec has it copy the observing context
    in full (constraint set, concrete memory, symbolic-object bindings) into
    a new object with the next sequential identifier. The new object gets an
    address no live state has. *)
Definition clone (state : positive) (w : World)
  : Result (positive * World) :=
  match heap w !! state with
  | None => Fatal InvalidAccess
  | Some st =>
      let p := fresh (dom (heap w)) in
      let id := lastStateID w + 1 in
      Returns (p, set_lastStateID id (set_heap (<[p := set_ID id st]> (heap w)) w))
  end.


(** ** Input streams: the part of [std::ifstream] that [readSelectedRetAddr] uses *)

Record ifstream : Type := {
  failbit : bool;
  eofbit : bool;
  rdbuf : list ascii
}.

(** [std::ifstream ifs("ret_addr")]: a file that cannot be opened leaves the
    stream with [failbit] set and [eofbit] clear. *)
Definition ifstream_open (file : option string) : ifstream :=
  match file with
  | Some content =>
      {| failbit := false; eofbit := false; rdbuf := list_ascii_of_string content |}
  | None => {| failbit := true; eofbit := false; rdbuf := [] |}
  end.

Definition good (s : ifstream) : bool := negb (failbit s) && negb (eofbit s).

Definition isspace (c : ascii) : bool :=
  let n := Z.of_nat (nat_of_ascii c) in
  (n =? 32) || ((9 <=? n) && (n <=? 13)).

Fixpoint skipws (l : list ascii) : list ascii :=
  match l with
  | c :: l' => if isspace c then skipws l' else l
  | [] => []
  end.

Definition digitValue (base : Z) (c : ascii) : option Z :=
  let n := Z.of_nat (nat_of_ascii c) in
  let v := if (48 <=? n) && (n <=? 57) then Some (n - 48)
           else if (97 <=? n) && (n <=? 102) then Some (n - 87)
           else if (65 <=? n) && (n <=? 70) then Some (n - 55)
           else None in
  match v with
  | Some d => if d <? base then Some d else None
  | None => None
  end.

(** The longest run of digits of the base, and what follows it. *)
Fixpoint digits (base acc : Z) (seen : bool) (l : list ascii)
  : option Z * list ascii :=
  match l with
  | c :: l' =>
      match digitValue base c with
      | Some d => digits base (acc * base + d) true l'
      | None => (if seen then Some acc else None, l)
      end
  | [] => (if seen then Some acc else None, [])
  end.

(** An optional sign in front of the number is read with it. *)
Definition dropSign (l : list ascii) : bool * list ascii :=
  match l with
  | c :: l' =>
      if Ascii.eqb c "-" then (true, l')
      else if Ascii.eqb c "+" then (false, l')
      else (false, l)
  | [] => (false, [])
  end.

(** A [0x] or [0X] in front of a hexadecimal number is read, whatever
    follows it. *)
Definition dropHexPrefix (base : Z) (l : list ascii) : list ascii :=
  match l with
  | "0"%char :: x :: l' =>
      if (base =? 16) && (Ascii.eqb x "x" || Ascii.eqb x "X") then l' else l
  | _ => l
  end.

Definition is_nil {A : Type} (l : list A) : bool :=
  match l with [] => true | _ => false end.

(** [ifs >> std::hex >> x] and [ifs >> std::dec >> x] on an unsigned [x] of
    maximum [max], as the [num_get] of the GNU C++ library reads it. On a
    stream that is not [good] nothing is read and [x] keeps its value; so it
    does when only white space is left, and [eofbit] is set with [failbit].
    Otherwise a sign, a [0x] (base 16) and the longest run of digits are
    read. No digit at all stores 0 and sets [failbit]; a number above [max]
    stores [max] and sets [failbit]; a number with a minus sign is negated
    in the arithmetic of [x]. [eofbit] is set when the reading reached the
    end of the file. *)
Definition extract (base max : Z) (s : ifstream) (old : Z) : ifstream * Z :=
  if negb (good s)
  then ({| failbit := true; eofbit := eofbit s; rdbuf := rdbuf s |}, old)
  else
    match skipws (rdbuf s) with
    | [] => ({| failbit := true; eofbit := true; rdbuf := [] |}, old)
    | rest =>
        let '(negative, rest) := dropSign rest in
        match digits base 0 false (dropHexPrefix base rest) with
        | (Some v, rest') =>
            ({| failbit := max <? v; eofbit := is_nil rest'; rdbuf := rest' |},
             if max <? v then max
             else if negative then (max + 1 - v) mod (max + 1)
             else v)
        | (None, rest') =>
            ({| failbit := true; eofbit := is_nil rest'; rdbuf := rest' |}, 0)
        end
    end.

Definition SIZE_MAX : Z := 2 ^ 64 - 1.
Definition UINT_MAX : Z := 2 ^ 32 - 1.

(** The alternate-path constraint: both [onStateForkDecide] and
    [generateTestcase] build it with the same [if (conditionIsTrue)]. *)
Definition branchedConstraint (conditionIsTrue : bool) (condition : Expr) : Expr :=
  if conditionIsTrue then createIsZero condition else condition.

(** The loop [for (i < symbObjects.size()) concolics->add(symbObjects[i],
    concreteObjects[i])]; an index past the end of [concreteObjects] is an
    invalid access. *)
Fixpoint addAll (symbObjects : ArrayVec) (concreteObjects : list (list Byte.byte))
  (a : Assignment) : Result Assignment :=
  match symbObjects with
  | [] => Returns a
  | o :: os =>
      match concreteObjects with
      | [] => Fatal InvalidAccess
      | v :: vs => addAll os vs (<[o := v]> a)
      end
  end.

(** The user CPU time budget is a [double] number of seconds, as are the
    readings of [klee::util::getUserTime]; both are taken as exact
    rationals. Each call of [getUserTime] is a reading of its own. *)
Definition reached (now budget : Q) : bool := Qle_bool budget now.

(** [sizeof(S2E_TICooperator_COMMAND)]: a 4-byte enum, padding, and a union
    holding a [uint64_t]. *)
Definition sizeof_command : Z := 16.
Definition TICOOP_PRINT_STATISTICS : Z := 0.

(** * Rev2: the revision with correlation ids *)

Module Rev2.

(** Modelled from the spec: the header of this revision, which declares
    [retAddr] and [isStepped], is not in the repository. The spec has the
    registry an ordered collection uniquely keyed by address, so [retAddr]
    is a [std::map<uint64_t, unsigned int>], kept here as the list of its
    entries in iteration order (ascending address); [isStepped] is the set
    of addresses reached. *)
Fixpoint emplace (e : Z * Z) (m : list (Z * Z)) : list (Z * Z) :=
  match m with
  | [] => [e]
  | e' :: m' =>
      if e.1 <? e'.1 then e :: m
      else if e.1 =? e'.1 then m
      else e' :: emplace e m'
  end.

Record TICooperator : Type := {
  m_currentState : option positive;
  m_timeout : Q;
  constraintsCount : Z;
  solvedConstraints : Z;
  unsolvedConstraints : Z;
  retAddr : list (Z * Z);
  isStepped : gset Z;
  statOfs : ofstream
}.

Definition set_currentState (p : option positive) (t : TICooperator) :=
  {| m_currentState := p; m_timeout := m_timeout t;
     constraintsCount := constraintsCount t;
     solvedConstraints := solvedConstraints t;
     unsolvedConstraints := unsolvedConstraints t;
     retAddr := retAddr t; isStepped := isStepped t; statOfs := statOfs t |}.

Definition set_counters (c s u : Z) (t : TICooperator) :=
  {| m_currentState := m_currentState t; m_timeout := m_timeout t;
     constraintsCount := c; solvedConstraints := s; unsolvedConstraints := u;
     retAddr := retAddr t; isStepped := isStepped t; statOfs := statOfs t |}.

Definition set_isStepped (i : gset Z) (t : TICooperator) :=
  {| m_currentState := m_currentState t; m_timeout := m_timeout t;
     constraintsCount := constraintsCount t;
     solvedConstraints := solvedConstraints t;
     unsolvedConstraints := unsolvedConstraints t;
     retAddr := retAddr t; isStepped := i; statOfs := statOfs t |}.

Definition set_statOfs (o : ofstream) (t : TICooperator) :=
  {| m_currentState := m_currentState t; m_timeout := m_timeout t;
     constraintsCount := constraintsCount t;
     solvedConstraints := solvedConstraints t;
     unsolvedConstraints := unsolvedConstraints t;
     retAddr := retAddr t; isStepped := isStepped t; statOfs := o |}.

(** [constraintsCount++], [solvedConstraints++], [unsolvedConstraints++]. *)
Definition incr_constraintsCount (t : TICooperator) :=
  set_counters (incr32 (constraintsCount t)) (solvedConstraints t)
    (unsolvedConstraints t) t.
Definition incr_solvedConstraints (t : TICooperator) :=
  set_counters (constraintsCount t) (incr32 (solvedConstraints t))
    (unsolvedConstraints t) t.
Definition incr_unsolvedConstraints (t : TICooperator) :=
  set_counters (constraintsCount t) (solvedConstraints t)
    (incr32 (unsolvedConstraints t)) t.

(** The object [initialize] leaves behind once [readSelectedRetAddr] has
    filled the registry with [reg]: the statics are 0, no state is tracked,
    nothing is stepped, the statistics file is open and empty, and the
    budget is 3600000. *)
Definition initialized (reg : list (Z * Z)) : TICooperator :=
  {| m_currentState := None; m_timeout := 3600000;
     constraintsCount := 0; solvedConstraints := 0; unsolvedConstraints := 0;
     retAddr := reg; isStepped := ∅; statOfs := ofs_new |}.

(** The predicate of the [std::find_if] in [onStateForkDecide]. *)
Definition siteMatches (currentPc : Z) (e : Z * Z) : bool :=
  if currentPc <? e.1 then false
  else sub64 currentPc e.1 <? 0x10.

(** [if (m_currentState == nullptr) m_currentState = state]. *)
Definition adoptState (state : positive) (t : TICooperator) : TICooperator :=
  match m_currentState t with
  | None => set_currentState (Some state) t
  | Some _ => t
  end.

(** [if (isStepped.find(a) == isStepped.end()) isStepped.emplace(a)]. *)
Definition markStepped (address : Z) (t : TICooperator) : TICooperator :=
  if bool_decide (address ∈ isStepped t) then t
  else set_isStepped ({[address]} ∪ isStepped t) t.

(** A site is visited when its address is in [isStepped]. *)
Definition visited (t : TICooperator) (address : Z) : bool :=
  bool_decide (address ∈ isStepped t).

(** [readSelectedRetAddr]. One turn of the loop is two extractions and an
    [emplace]. The loop may not end; [fuel] bounds the number of turns and
    [None] is the loop still running when it is used up. [instRetAddr] and
    [cmpId] are not initialised: their first values are whatever they happen
    to be. *)
Definition readBody (s : ifstream * Z * Z * list (Z * Z))
  : ifstream * Z * Z * list (Z * Z) :=
  let '(ifs, instRetAddr, cmpId, reg) := s in
  let '(ifs1, instRetAddr') := extract 16 SIZE_MAX ifs instRetAddr in
  let '(ifs2, cmpId') := extract 10 UINT_MAX ifs1 cmpId in
  (ifs2, instRetAddr', cmpId', emplace (instRetAddr', cmpId') reg).

Fixpoint readLoop (fuel : nat) (s : ifstream * Z * Z * list (Z * Z))
  : option (list (Z * Z)) :=
  match fuel with
  | O => None
  | S fuel' =>
      let '(ifs, _, _, reg) := s in
      if eofbit ifs then Some reg else readLoop fuel' (readBody s)
  end.

Definition readSelectedRetAddr (fuel : nat) (file : option string)
  (instRetAddr cmpId : Z) (reg : list (Z * Z)) (w : World)
  : option (list (Z * Z) * World) :=
  let ifs := ifstream_open file in
  let w := if failbit ifs then add_message MsgUnableToOpen w else w in
  match readLoop fuel (ifs, instRetAddr, cmpId, reg) with
  | Some reg' => Some (reg', w)
  | None => None
  end.

(** [initialize], without the creation of the test-case directory and the
    connection of the three callbacks. *)
Definition initialize (fuel : nat) (file : option string)
  (instRetAddr cmpId : Z) (w : World) : option (TICooperator * World) :=
  match readSelectedRetAddr fuel file instRetAddr cmpId [] w with
  | Some (reg, w') => Some (initialized reg, w')
  | None => None
  end.

Definition onTimer (now1 now2 : Q) (t : TICooperator) (w : World)
  : TICooperator * World :=
  let w := add_message (MsgStatistics (solvedConstraints t)
                          (unsolvedConstraints t) (constraintsCount t)) w in
  let row := StatRow now1 (solvedConstraints t) (unsolvedConstraints t)
               (constraintsCount t) in
  let t := set_statOfs (ofs_flush (ofs_write row (statOfs t))) t in
  if reached now2 (m_timeout t)
  then (t, add_terminated (m_currentState t, "timeout"%string) w)
  else (t, w).



(** The loop of [onEngineShutdown] over [retAddr]: the lines written to
    [failed.stats] and the two tallies. *)
Fixpoint tally (stepped : gset Z) (reg : list (Z * Z))
  (failedOfs : list (Z * Z)) (solvedBranch failedBranch : Z)
  : list (Z * Z) * Z * Z :=
  match reg with
  | [] => (failedOfs, solvedBranch, failedBranch)
  | it :: reg' =>
      if bool_decide (it.1 ∈ stepped)
      then tally stepped reg' failedOfs (incr32 solvedBranch) failedBranch
      else tally stepped reg' (failedOfs ++ [it]) solvedBranch (incr32 failedBranch)
  end.

(** [onEngineShutdown]; [failedOfs] tells whether [failed.stats] could be
    opened, the [if (failedOfs)] of the source. *)
Definition onEngineShutdown (failedOfs : bool) (now1 now2 now3 : Q)
  (t : TICooperator) (w : World) : TICooperator * World :=
  let '(lines, solvedBranch, failedBranch) :=
    if failedOfs then tally (isStepped t) (retAddr t) [] 0 0
    else ([], 0, 0) in
  let w := if failedOfs then set_failedStats (Some lines) w else w in
  let '(t, w) := onTimer now1 now2 t w in
  let summary := SummaryRow now3 solvedBranch failedBranch
                   (Z.of_nat (length (retAddr t))) in
  (set_statOfs (ofs_close (ofs_write summary (statOfs t))) t, w).

Definition handleOpcodeInvocation (guestDataSize : Z) (guestData : option Z)
  (now1 now2 : Q) (t : TICooperator) (w : World) : TICooperator * World :=
  if negb (guestDataSize =? sizeof_command)
  then (t, add_message MsgMismatchedSize w)
  else
    match guestData with
    | None => (t, add_message MsgCouldNotRead w)
    | Some command =>
        if command =? TICOOP_PRINT_STATISTICS then onTimer now1 now2 t w
        else (t, add_message (MsgUnknownCommand command) w)
    end.

Section WithEngine.
Context `{Engine}.

(** [generateTestcase]. The clone is written through its own address. What
    [branchedState->addConstraint] does to the clone when it accepts is the
    engine's business; as in the spec, the clone then carries the constraint
    in its constraint set. *)
Definition generateTestcase (state : positive) (condition : Expr)
  (conditionIsTrue : bool) (symbObjects : ArrayVec)
  (concreteObjects : list (list Byte.byte)) (ret_addr cmpId : Z) (w : World)
  : Result World :=
  '(branchedState, w) ← clone state w;
  match heap w !! branchedState with
  | None => Fatal InvalidAccess
  | Some st =>
      (* concolics->clear(), then one add per symbolic object *)
      a ← addAll symbObjects concreteObjects ∅;
      let st := set_concolics a st in
      let w := set_heap (<[branchedState := st]> (heap w)) w in
      let c := branchedConstraint conditionIsTrue condition in
      if negb (addConstraint st c) then Fatal AbortCalled
      else
        let st := set_constraints (constraints st ++ [c]) st in
        let w := set_heap (<[branchedState := st]> (heap w)) w in
        let w := add_testCase {| tc_state := st;
                                 tc_id := wrap32 (getID st - 1);
                                 tc_site := Some (ret_addr, cmpId) |} w in
        (* delete branchedState *)
        Returns (set_heap (delete branchedState (heap w)) w)
  end.

(** The third component of the result is [allowForking] on return. *)
Definition onStateForkDecide (state : positive) (condition_ : Expr)
  (allowForking : bool) (t : TICooperator) (w : World)
  : Result (TICooperator * World * bool) :=
  let allowForking := if allowForking then false else allowForking in
  let t := adoptState state t in
  match heap w !! state with
  | None => Fatal InvalidAccess
  | Some st =>
      if isRunningConcrete st then Fatal AssertionFailed
      else
        let condition := simplifyExpr st condition_ in
        if isConstantExpr condition then Returns (t, w, allowForking)
        else
          let currentPc := getPc st in
          match find (siteMatches currentPc) (retAddr t) with
          | None => Returns (t, w, allowForking)
          | Some (ret_addr, cmpId) =>
              let t := markStepped ret_addr t in
              match evaluate (concolics st) condition with
              | ConstantExpr value width =>
                  let conditionIsTrue := isTrue value width in
                  let tmpConstraints :=
                    constraints st ++ [branchedConstraint conditionIsTrue condition] in
                  let symbObjects := symbolics st in
                  let q := {| q_constraints := tmpConstraints;
                              q_expr := ConstantExpr 0 ExprBool |} in
                  let t := incr_constraintsCount t in
                  match getInitialValues q symbObjects with
                  | None => Returns (incr_unsolvedConstraints t, w, allowForking)
                  | Some concreteObjects =>
                      let t := incr_solvedConstraints t in
                      w ← generateTestcase state condition conditionIsTrue
                            symbObjects concreteObjects ret_addr cmpId w;
                      Returns (t, w, allowForking)
                  end
              | _ => Fatal CheckFailed
              end
          end
  end.

(** What the engine does over a run, seen from the plugin: it advances a
    state and raises the fork-decision event on it, the timer fires, or the
    guest invokes the plugin. *)
Inductive Event : Type :=
| BranchObserved (state : positive) (st : ExecutionState) (condition_ : Expr)
    (allowForking : bool)
| TimerTick (now1 now2 : Q)
| OpcodeInvocation (guestDataSize : Z) (guestData : option Z) (now1 now2 : Q).

Definition step (ev : Event) (c : TICooperator * World)
  : Result (TICooperator * World) :=
  match ev with
  | BranchObserved state st condition_ allowForking =>
      let w := set_heap (<[state := st]> (heap c.2)) c.2 in
      r ← onStateForkDecide state condition_ allowForking c.1 w;
      Returns (r.1.1, r.1.2)
  | TimerTick now1 now2 => Returns (onTimer now1 now2 c.1 c.2)
  | OpcodeInvocation size data now1 now2 =>
      Returns (handleOpcodeInvocation size data now1 now2 c.1 c.2)
  end.

Fixpoint run (evs : list Event) (c : TICooperator * World)
  : Result (TICooperator * World) :=
  match evs with
  | [] => Returns c
  | ev :: evs' => c' ← step ev c; run evs' c'
  end.

End WithEngine.

End Rev2.

(** * Rev1: the address-only revision *)

Module Rev1.

(** As declared in [TICooperator.h]; [retAddr] is a [std::vector<size_t>]. *)
Record TICooperator : Type := {
  m_currentState : option positive;
  m_timeout : Q;
  constraintsCount : Z;
  solvedConstraints : Z;
  unsolvedConstraints : Z;
  retAddr : list Z;
  statOfs : ofstream
}.

Definition set_currentState (p : option positive) (t : TICooperator) :=
  {| m_currentState := p; m_timeout := m_timeout t;
     constraintsCount := constraintsCount t;
     solvedConstraints := solvedConstraints t;
     unsolvedConstraints := unsolvedConstraints t;
     retAddr := retAddr t; statOfs := statOfs t |}.

Definition set_counters (c s u : Z) (t : TICooperator) :=
  {| m_currentState := m_currentState t; m_timeout := m_timeout t;
     constraintsCount := c; solvedConstraints := s; unsolvedConstraints := u;
     retAddr := retAddr t; statOfs := statOfs t |}.

Definition set_statOfs (o : ofstream) (t : TICooperator) :=
  {| m_currentState := m_currentState t; m_timeout := m_timeout t;
     constraintsCount := constraintsCount t;
     solvedConstraints := solvedConstraints t;
     unsolvedConstraints := unsolvedConstraints t;
     retAddr := retAddr t; statOfs := o |}.

Definition incr_constraintsCount (t : TICooperator) :=
  set_counters (incr32 (constraintsCount t)) (solvedConstraints t)
    (unsolvedConstraints t) t.
Definition incr_solvedConstraints (t : TICooperator) :=
  set_counters (constraintsCount t) (incr32 (solvedConstraints t))
    (unsolvedConstraints t) t.
Definition incr_unsolvedConstraints (t : TICooperator) :=
  set_counters (constraintsCount t) (solvedConstraints t)
    (incr32 (unsolvedConstraints t)) t.

(** The object after [initialize]; the budget of this revision is 3600. *)
Definition initialized (reg : list Z) : TICooperator :=
  {| m_currentState := None; m_timeout := 3600;
     constraintsCount := 0; solvedConstraints := 0; unsolvedConstraints := 0;
     retAddr := reg; statOfs := ofs_new |}.

(** The test of the loop over [retAddr]:
    [abs((long long)(currentPc) - (long long)*it) < 0x10]. *)
Definition siteMatches (currentPc : Z) (it : Z) : bool :=
  llabs (toLongLong (toLongLong currentPc - toLongLong it)) <? 0x10.

(** [if (m_currentState == nullptr) m_currentState = state]. *)
Definition adoptState (state : positive) (t : TICooperator) : TICooperator :=
  match m_currentState t with
  | None => set_currentState (Some state) t
  | Some _ => t
  end.

(** The loop sets [is_uncovered] at the first address that passes the test. *)
Definition is_uncovered (currentPc : Z) (reg : list Z) : bool :=
  existsb (siteMatches currentPc) reg.

(** One turn of the loop: an extraction and a [push_back]. The loop may not
    end; [fuel] bounds its turns and [None] is the loop still running. *)
Definition readBody (s : ifstream * Z * list Z) : ifstream * Z * list Z :=
  let '(ifs, instRetAddr, reg) := s in
  let '(ifs1, instRetAddr') := extract 16 SIZE_MAX ifs instRetAddr in
  (ifs1, instRetAddr', reg ++ [instRetAddr']).

Fixpoint readLoop (fuel : nat) (s : ifstream * Z * list Z) : option (list Z) :=
  match fuel with
  | O => None
  | S fuel' =>
      let '(ifs, _, reg) := s in
      if eofbit ifs then Some reg else readLoop fuel' (readBody s)
  end.

Definition readSelectedRetAddr (fuel : nat) (file : option string)
  (instRetAddr : Z) (reg : list Z) (w : World) : option (list Z * World) :=
  let ifs := ifstream_open file in
  let w := if failbit ifs then add_message MsgUnableToOpen w else w in
  match readLoop fuel (ifs, instRetAddr, reg) with
  | Some reg' => Some (reg', w)
  | None => None
  end.

Definition onTimer (now1 now2 : Q) (t : TICooperator) (w : World)
  : TICooperator * World :=
  let w := add_message (MsgStatistics (solvedConstraints t)
                          (unsolvedConstraints t) (constraintsCount t)) w in
  let row := StatRow now1 (solvedConstraints t) (unsolvedConstraints t)
               (constraintsCount t) in
  let t := set_statOfs (ofs_flush (ofs_write row (statOfs t))) t in
  if reached now2 (m_timeout t)
  then (t, add_terminated (m_currentState t, "timeout"%string) w)
  else (t, w).

Definition onEngineShutdown (now1 now2 : Q) (t : TICooperator) (w : World)
  : TICooperator * World :=
  let '(t, w) := onTimer now1 now2 t w in
  (set_statOfs (ofs_close (statOfs t)) t, w).

Section WithEngine.
Context `{Engine}.

Definition generateTestcase (state : positive) (condition : Expr)
  (conditionIsTrue : bool) (symbObjects : ArrayVec)
  (concreteObjects : list (list Byte.byte)) (w : World) : Result World :=
  '(branchedState, w) ← clone state w;
  match heap w !! branchedState with
  | None => Fatal InvalidAccess
  | Some st =>
      a ← addAll symbObjects concreteObjects ∅;
      let st := set_concolics a st in
      let w := set_heap (<[branchedState := st]> (heap w)) w in
      let c := branchedConstraint conditionIsTrue condition in
      if negb (addConstraint st c) then Fatal AbortCalled
      else
        let st := set_constraints (constraints st ++ [c]) st in
        let w := set_heap (<[branchedState := st]> (heap w)) w in
        let w := add_testCase {| tc_state := st;
                                 tc_id := wrap32 (getID st - 1);
                                 tc_site := None |} w in
        Returns (set_heap (delete branchedState (heap w)) w)
  end.

Definition onStateForkDecide (state : positive) (condition_ : Expr)
  (allowForking : bool) (t : TICooperator) (w : World)
  : Result (TICooperator * World * bool) :=
  let allowForking := if allowForking then false else allowForking in
  let t := adoptState state t in
  match heap w !! state with
  | None => Fatal InvalidAccess
  | Some st =>
      if isRunningConcrete st then Fatal AssertionFailed
      else
        let condition := simplifyExpr st condition_ in
        if isConstantExpr condition then Returns (t, w, allowForking)
        else
          match evaluate (concolics st) condition with
          | ConstantExpr value width =>
              let conditionIsTrue := isTrue value width in
              let currentPc := getPc st in
              if negb (is_uncovered currentPc (retAddr t))
              then Returns (t, w, allowForking)
              else
                let tmpConstraints :=
                  constraints st ++ [branchedConstraint conditionIsTrue condition] in
                let symbObjects := symbolics st in
                let q := {| q_constraints := tmpConstraints;
                            q_expr := ConstantExpr 0 ExprBool |} in
                let t := incr_constraintsCount t in
                match getInitialValues q symbObjects with
                | None => Returns (incr_unsolvedConstraints t, w, allowForking)
                | Some concreteObjects =>
                    let t := incr_solvedConstraints t in
                    w ← generateTestcase state condition conditionIsTrue
                          symbObjects concreteObjects w;
                    Returns (t, w, allowForking)
                end
          | _ => Fatal CheckFailed
          end
  end.

End WithEngine.

End Rev1.

(** * A small engine to run the callbacks on

    Conditions are built from reads of symbolic bytes; [toyEval] computes
    them under an assignment and leaves a read of an unbound byte as it is,
    so that an expression over an unbound object does not reduce to a
    constant. The solver of [toyEngine] answers with one zero byte per
    object, the one of [failingEngine] never finds an answer. *)

Definition byteZ (b : Byte.byte) : Z := Z.of_N (Byte.to_N b).

Fixpoint toyEval (a : Assignment) (e : Expr) : Expr :=
  match e with
  | ConstantExpr v w => ConstantExpr v w
  | ReadExpr arr i =>
      match a !! arr with
      | Some bytes =>
          match bytes !! Z.to_nat i with
          | Some b => ConstantExpr (byteZ b) 8
          | None => ReadExpr arr i
          end
      | None => ReadExpr arr i
      end
  | NotExpr e1 =>
      match toyEval a e1 with
      | ConstantExpr v w => ConstantExpr (if v =? 0 then 1 else 0) w
      | e1' => NotExpr e1'
      end
  | EqExpr l r =>
      match toyEval a l, toyEval a r with
      | ConstantExpr v1 _, ConstantExpr v2 _ =>
          ConstantExpr (if v1 =? v2 then 1 else 0) ExprBool
      | l', r' => EqExpr l' r'
      end
  | UltExpr l r =>
      match toyEval a l, toyEval a r with
      | ConstantExpr v1 _, ConstantExpr v2 _ =>
          ConstantExpr (if v1 <? v2 then 1 else 0) ExprBool
      | l', r' => UltExpr l' r'
      end
  end.

Definition toyEngine : Engine :=
  {| simplifyExpr := fun _ e => e;
     evaluate := toyEval;
     getInitialValues := fun _ objs => Some (map (fun _ => [Byte.x00]) objs);
     addConstraint := fun _ _ => true |}.

Definition failingEngine : Engine :=
  {| simplifyExpr := fun _ e => e;
     evaluate := toyEval;
     getInitialValues := fun _ _ => None;
     addConstraint := fun _ _ => true |}.

(** An engine that refuses to add a constant as a constraint. *)
Definition strictEngine : Engine :=
  {| simplifyExpr := fun _ e => e;
     evaluate := toyEval;
     getInitialValues := fun _ objs => Some (map (fun _ => [Byte.x00]) objs);
     addConstraint := fun _ e => negb (isConstantExpr e) |}.

(** A state at [pc] with one symbolic byte [x], concretely [0x41]. *)
Definition stateAt (pc : Z) : ExecutionState :=
  {| getID := 0; getPc := pc; constraints := [];
     concolics := {[ "x"%string := [Byte.x41] ]};
     symbolics := ["x"%string]; isRunningConcrete := false |}.

(** [x == 0x41], true under the assignment of [stateAt]. *)
Definition condX : Expr := EqExpr (ReadExpr "x" 0) (ConstantExpr 0x41 8).

(** A condition over an object that has no concrete value. *)
Definition condUnbound : Expr := EqExpr (ReadExpr "y" 0) (ConstantExpr 0 8).

Definition emptyWorld : World :=
  {| heap := ∅; lastStateID := 0; testCases := []; terminated := [];
     messages := []; failedStats := None |}.

(** One site at [0x1000] with correlation id 7, and a short run on it: a
    branch inside the window whose alternate path is solved, a timer tick
    below the budget, a branch outside every window, a branch whose
    simplified condition is a constant, and a request for the statistics
    from the guest. *)
Definition oneSite : list (Z * Z) := [(0x1000, 7)].

Definition shortRun : list Rev2.Event :=
  [ Rev2.BranchObserved 1 (stateAt 0x1005) condX true;
    Rev2.TimerTick 12 12;
    Rev2.BranchObserved 1 (stateAt 0x2000) condX true;
    Rev2.BranchObserved 1 (stateAt 0x1005) (ConstantExpr 1 ExprBool) true;
    Rev2.OpcodeInvocation 16 (Some 0) 13 13 ].

(** Two sites eight bytes apart; their windows overlap on
    [0x1008 .. 0x100f]. *)
Definition twoSites : list (Z * Z) := [(0x1000, 1); (0x1008, 2)].

(** A world whose only live state is [st], at address 1. *)
Definition worldWith (st : ExecutionState) : World :=
  set_heap {[ 1%positive := st ]} emptyWorld.

(** The object and the world at the end of [shortRun] on [toyEngine]. *)
Definition shortRunEnd : Rev2.TICooperator * World :=
  Eval vm_compute in
    match Rev2.run (H := toyEngine) shortRun (Rev2.initialized oneSite, emptyWorld) with
    | Returns c => c
    | Fatal _ => (Rev2.initialized oneSite, emptyWorld)
    end.

(** * Vocabulary of the statements *)

(** A row of [Solving.stats] whose three counters add up, in the
    [unsigned int] arithmetic of the counters. *)
Definition rowBalanced (l : StatLine) : Prop :=
  match l with
  | StatRow _ solved unsolved total => wrap32 (solved + unsolved) = total
  | SummaryRow _ _ _ _ => True
  end.

(** A counter that was left alone or incremented. *)
Definition keptOrIncremented (old new : Z) : Prop :=
  new = old \/ new = incr32 old.

Definition isBranchObserved (ev : Rev2.Event) : bool :=
  match ev with
  | Rev2.BranchObserved _ _ _ _ => true
  | _ => false
  end.

(** The branch observations that reach the marking of the site at
    [address]: the simplified condition is not a constant and the site is the
    first entry of the registry whose window holds the program counter. *)
Definition marks `{Engine} (reg : list (Z * Z)) (ev : Rev2.Event) (address : Z)
  : Prop :=
  match ev with
  | Rev2.BranchObserved _ st condition_ _ =>
      isConstantExpr (simplifyExpr st condition_) = false /\
      exists cmpId,
        find (Rev2.siteMatches (getPc st)) reg = Some (address, cmpId)
  | _ => False
  end.

(** The sites of the registry whose address is not in [isStepped], in
    registry order, and the number of those whose address is. *)
Definition unvisitedSites (t : Rev2.TICooperator) : list (Z * Z) :=
  List.filter (fun e => negb (Rev2.visited t e.1)) (Rev2.retAddr t).

Definition visitedCount (t : Rev2.TICooperator) : Z :=
  Z.of_nat (length (List.filter (fun e => Rev2.visited t e.1) (Rev2.retAddr t))).

Definition totalSites (t : Rev2.TICooperator) : Z :=
  Z.of_nat (length (Rev2.retAddr t)).

(** Materialization requests issued between two worlds. *)
Definition requestsSince (w w' : World) : Z :=
  Z.of_nat (length (testCases w')) - Z.of_nat (length (testCases w)).

(** The three counters of an object, and the balance the statistics keep:
    the counters add up and so does every row written so far. *)
Definition counters (t : Rev2.TICooperator) : Z * Z * Z :=
  (Rev2.constraintsCount t, Rev2.solvedConstraints t, Rev2.unsolvedConstraints t).

Definition balanced (t : Rev2.TICooperator) : Prop :=
  wrap32 (Rev2.solvedConstraints t + Rev2.unsolvedConstraints t)
    = Rev2.constraintsCount t /\
  Forall rowBalanced (flushed (Rev2.statOfs t) ++ pending (Rev2.statOfs t)).

(** No counter of [t'] is below where [t] had it, wrap-around apart: each
    was left alone or incremented. *)
Definition onlyIncremented (t t' : Rev2.TICooperator) : Prop :=
  keptOrIncremented (Rev2.constraintsCount t) (Rev2.constraintsCount t') /\
  keptOrIncremented (Rev2.solvedConstraints t) (Rev2.solvedConstraints t') /\
  keptOrIncremented (Rev2.unsolvedConstraints t) (Rev2.unsolvedConstraints t').

(** After at most [n] events since the world [w0]: the counters are the
    numbers [s] of solved and [u] of unsolved constraints, reduced to
    [unsigned int], and [s] requests went to the test-case generator. *)
Definition tallied (w0 : World) (n : Z) (c : Rev2.TICooperator * World) : Prop :=
  exists s u : Z,
    0 <= s /\ 0 <= u /\ s + u <= n /\
    Rev2.solvedConstraints c.1 = wrap32 s /\
    Rev2.unsolvedConstraints c.1 = wrap32 u /\
    Rev2.constraintsCount c.1 = wrap32 (s + u) /\
    requestsSince w0 c.2 = s.


(** The solver is asked about the branch and finds an answer: the
    simplified condition is not a constant, a site matches, the condition
    evaluates to a constant, and [getInitialValues] succeeds on the copied
    constraints with the alternate-path constraint. *)
Definition solverSucceeds `{Engine} (reg : list (Z * Z)) (st : ExecutionState)
  (condition_ : Expr) : Prop :=
  let c := simplifyExpr st condition_ in
  isConstantExpr c = false /\
  is_Some (find (Rev2.siteMatches (getPc st)) reg) /\
  exists v wd,
    evaluate (concolics st) c = ConstantExpr v wd /\
    is_Some (getInitialValues
               {| q_constraints :=
                    constraints st ++ [branchedConstraint (isTrue v wd) c];
                  q_expr := ConstantExpr 0 ExprBool |}
               (symbolics st)).

(** Unfolds the field updates of the object and of the world. *)
Ltac fields :=
  unfold Rev2.incr_solvedConstraints, Rev2.incr_unsolvedConstraints,
    Rev2.incr_constraintsCount, Rev2.markStepped, Rev2.adoptState,
    Rev2.set_counters, Rev2.set_isStepped, Rev2.set_currentState,
    Rev2.set_statOfs in *;
  repeat match goal with
         | |- context [match Rev2.m_currentState ?t with _ => _ end] =>
             destruct (Rev2.m_currentState t) eqn:?
         | |- context [bool_decide ?P] => destruct (bool_decide P) eqn:?
         end;
  cbn [Rev2.constraintsCount Rev2.solvedConstraints Rev2.unsolvedConstraints
       Rev2.retAddr Rev2.isStepped Rev2.statOfs Rev2.m_currentState
       Rev2.m_timeout fst snd] in *.

(** ** Vocabulary of the further properties *)

(** The branch observations at which the solver is asked: the simplified
    condition is not a constant and some site matches. *)
Definition solverAsked `{Engine} (reg : list (Z * Z)) (ev : Rev2.Event) : bool :=
  match ev with
  | Rev2.BranchObserved _ st condition_ _ =>
      negb (isConstantExpr (simplifyExpr st condition_)) &&
      match find (Rev2.siteMatches (getPc st)) reg with
      | Some _ => true
      | None => false
      end
  | _ => false
  end.

(** The events that reach [onTimer]: a timer tick, or a guest request of the
    right size that could be read and asks for the statistics. *)
Definition printsStatistics (ev : Rev2.Event) : bool :=
  match ev with
  | Rev2.TimerTick _ _ => true
  | Rev2.OpcodeInvocation size data _ _ =>
      (size =? sizeof_command) &&
      match data with
      | Some command => command =? TICOOP_PRINT_STATISTICS
      | None => false
      end
  | _ => false
  end.



Definition isStatRow (l : StatLine) : Prop :=
  match l with
  | StatRow _ _ _ _ => True
  | SummaryRow _ _ _ _ => False
  end.

(** [initTestcaseDirectory], the same in both revisions: the directory is
    [<output directory>/testcase-]; when it cannot be created the process
    exits ([None]); otherwise [chmod] gets [0775 & ~m], where [m] is the
    process umask, read and put back by the two calls of [umask]. The
    result is the path and the mode. *)
Definition initTestcaseDirectory (outputDirectory : string) (mkdirError : bool)
  (m : Z) : option (string * Z) :=
  let dirPath := (outputDirectory ++ "/testcase-")%string in
  if mkdirError then None
  else Some (dirPath, Z.land 0x1fd (Z.lxor m (Z.ones 32))).

(** The clone at the moment [generateTestcase] calls [addConstraint] on it:
    the observing state under the next identifier, with the solver's values
    as its concrete assignment. *)
Definition branchedStateOf (st : ExecutionState) (w : World) (a : Assignment)
  : ExecutionState :=
  set_concolics a (set_ID (lastStateID w + 1) st).

(** The engine keeps to its contract on the branch [condition_] observed on
    [st] in the world [w]: the simplified condition evaluates to a constant
    under the concrete assignment; an answer of the solver to the query of
    the hook has one value per symbolic object; and the clone that carries
    this answer accepts the alternate-path constraint. Only the calls the
    hook makes on this branch are constrained: what the engine answers on
    other states, expressions or queries is left open. *)
Definition engineBehaves `{Engine} (st : ExecutionState) (w : World)
  (condition_ : Expr) : Prop :=
  let c := simplifyExpr st condition_ in
  exists v wd,
    evaluate (concolics st) c = ConstantExpr v wd /\
    forall vals,
      getInitialValues
        {| q_constraints := constraints st ++ [branchedConstraint (isTrue v wd) c];
           q_expr := ConstantExpr 0 ExprBool |}
        (symbolics st) = Some vals ->
      length (symbolics st) = length vals /\
      forall a,
        addAll (symbolics st) vals ∅ = Returns a ->
        addConstraint (branchedStateOf st w a)
          (branchedConstraint (isTrue v wd) c) = true.

(** A request that names a registered site whose address is stepped. *)
Definition requestForVisitedSite (reg : list (Z * Z)) (t : Rev2.TICooperator)
  (r : TestCaseRequest) : Prop :=
  exists e, In e reg /\ tc_site r = Some e /\ e.1 ∈ Rev2.isStepped t.

(** The same for the object of [Rev1]. *)
Ltac fields1 :=
  unfold Rev1.incr_solvedConstraints, Rev1.incr_unsolvedConstraints,
    Rev1.incr_constraintsCount, Rev1.adoptState,
    Rev1.set_counters, Rev1.set_currentState, Rev1.set_statOfs in *;
  repeat match goal with
         | |- context [match Rev1.m_currentState ?t with _ => _ end] =>
             destruct (Rev1.m_currentState t) eqn:?
         end;
  cbn [Rev1.constraintsCount Rev1.solvedConstraints Rev1.unsolvedConstraints
       Rev1.retAddr Rev1.statOfs Rev1.m_currentState Rev1.m_timeout fst snd] in *.

(** * Properties *)

(** ** Site lookup *)

Lemma wrap64_small z : 0 <= z < 2 ^ 64 -> wrap64 z = z.
Proof. intros Hz. unfold wrap64. apply Z.mod_small. exact Hz. Qed.

Lemma toLongLong_small z : 0 <= z < 2 ^ 63 -> toLongLong z = z.
Proof.
  intros Hz. unfold toLongLong. rewrite wrap64_small by lia.
  destruct (z <? 2 ^ 63) eqn:E; [reflexivity|]. apply Z.ltb_ge in E. lia.
Qed.

Lemma toLongLong_neg z : - 2 ^ 63 <= z < 0 -> toLongLong z = z.
Proof.
  intros Hz. unfold toLongLong, wrap64.
  replace (z mod 2 ^ 64) with (z + 2 ^ 64).
  - destruct (z + 2 ^ 64 <? 2 ^ 63) eqn:E; [apply Z.ltb_lt in E|]; lia.
  - apply Z.mod_unique with (q := -1); lia.
Qed.

(** In [Rev2] the predicate of the [find_if] holds of a site exactly when
    the program counter is in the 16 addresses that start at the site. *)
Lemma Rev2_siteMatches_iff (pc address cmpId : Z) :
  0 <= pc < 2 ^ 64 -> 0 <= address < 2 ^ 64 ->
  Rev2.siteMatches pc (address, cmpId) = true <-> 0 <= pc - address < 0x10.
Proof.
  intros Hpc Ha. unfold Rev2.siteMatches, sub64. simpl.
  destruct (pc <? address) eqn:E.
  - apply Z.ltb_lt in E. split; [discriminate | lia].
  - apply Z.ltb_ge in E. rewrite wrap64_small by lia.
    rewrite Z.ltb_lt. lia.
Qed.

(** In [Rev1] the test is symmetric: it holds exactly when the distance
    between program counter and address is below 16, on either side. *)
Lemma Rev1_siteMatches_iff (pc address : Z) :
  0 <= pc < 2 ^ 63 -> 0 <= address < 2 ^ 63 ->
  Rev1.siteMatches pc address = true <-> Z.abs (pc - address) < 0x10.
Proof.
  intros Hpc Ha. unfold Rev1.siteMatches, llabs.
  rewrite (toLongLong_small pc), (toLongLong_small address) by lia.
  assert (Hd : toLongLong (pc - address) = pc - address).
  { destruct (Z_lt_le_dec (pc - address) 0).
    - apply toLongLong_neg; lia.
    - apply toLongLong_small; lia. }
  rewrite Hd. rewrite toLongLong_small.
  - apply Z.ltb_lt.
  - split; [apply Z.abs_nonneg|]. apply Z.abs_lt. lia.
Qed.

(** C1 (the address-only revision breaks it). The claim has the lookup of
    the branch hook match a site only for [0 <= pc - A < 0x10]. With the one
    site [0x1000] registered and a branch observed at [pc = 0xfff], one
    below the site, the loop of [Rev1] sets [is_uncovered] and the hook goes
    on to the solver ([constraintsCount] becomes 1), while the predicate of
    [Rev2] rejects the same [pc]. *)
Theorem Rev1_lookup_matches_below_site :
  Rev1.is_uncovered 0xfff [0x1000] = true /\
  (exists t w,
     Rev1.onStateForkDecide (H := toyEngine) 1%positive condX true
       (Rev1.initialized [0x1000]) (worldWith (stateAt 0xfff))
     = Returns (t, w, false) /\
     Rev1.constraintsCount t = 1 /\ length (testCases w) = 1%nat) /\
  Rev2.siteMatches 0xfff (0x1000, 7) = false.
Proof.
  split; [reflexivity|]. split; [|reflexivity].
  eexists _, _. split; [vm_compute; reflexivity|].
  split; reflexivity.
Qed.

(** ** What a returning callback did *)

Section Rev2Callbacks.
Context `{Engine}.

Lemma Rev2_retAddr_adoptState state t :
  Rev2.retAddr (Rev2.adoptState state t) = Rev2.retAddr t.
Proof. unfold Rev2.adoptState. destruct (Rev2.m_currentState t); reflexivity. Qed.

Lemma Rev2_retAddr_markStepped a t :
  Rev2.retAddr (Rev2.markStepped a t) = Rev2.retAddr t.
Proof. unfold Rev2.markStepped. case_bool_decide; reflexivity. Qed.

(** The hand-off allocates the clone, passes it to the generator and frees
    it: the engine's store is what it was, and one request was added. *)
Lemma Rev2_generateTestcase_returns state cond b objs vals a id w w' :
  Rev2.generateTestcase state cond b objs vals a id w = Returns w' ->
  exists st r,
    heap w !! state = Some st /\
    heap w' = heap w /\
    testCases w' = testCases w ++ [r] /\
    terminated w' = terminated w /\
    messages w' = messages w /\
    failedStats w' = failedStats w /\
    tc_site r = Some (a, id) /\
    constraints (tc_state r) = constraints st ++ [branchedConstraint b cond].
Proof.
  unfold Rev2.generateTestcase, clone.
  destruct (heap w !! state) as [st|] eqn:Hst; [|discriminate].
  cbn [mbind Result_bind heap set_heap set_lastStateID].
  rewrite lookup_insert_eq.
  destruct (addAll objs vals ∅) as [asg|] eqn:Hadd; [|discriminate].
  cbn [mbind Result_bind heap set_heap set_lastStateID].
  destruct (addConstraint _ _); [|discriminate].
  cbn [negb]. intros Hret. inversion Hret; subst; clear Hret.
  eexists st, _. split; [reflexivity|].
  cbn [heap set_heap add_testCase set_lastStateID testCases terminated
       messages failedStats tc_site tc_state].
  split.
  - rewrite !insert_insert_eq. apply delete_insert_id.
    apply not_elem_of_dom. apply is_fresh.
  - repeat split; reflexivity.
Qed.

(** Every way in which [onStateForkDecide] returns. *)
Lemma Rev2_hook_returns state cond allow t w t' w' b :
  Rev2.onStateForkDecide state cond allow t w = Returns (t', w', b) ->
  b = false /\
  exists st,
    heap w !! state = Some st /\ isRunningConcrete st = false /\
    let t0 := Rev2.adoptState state t in
    let c := simplifyExpr st cond in
    ((isConstantExpr c = true /\ t' = t0 /\ w' = w) \/
     (isConstantExpr c = false /\
      find (Rev2.siteMatches (getPc st)) (Rev2.retAddr t) = None /\
      t' = t0 /\ w' = w) \/
     (exists a id v wd,
        isConstantExpr c = false /\
        find (Rev2.siteMatches (getPc st)) (Rev2.retAddr t) = Some (a, id) /\
        evaluate (concolics st) c = ConstantExpr v wd /\
        let t1 := Rev2.incr_constraintsCount (Rev2.markStepped a t0) in
        let q := {| q_constraints :=
                      constraints st ++ [branchedConstraint (isTrue v wd) c];
                    q_expr := ConstantExpr 0 ExprBool |} in
        ((getInitialValues q (symbolics st) = None /\
          t' = Rev2.incr_unsolvedConstraints t1 /\ w' = w) \/
         (exists vals,
            getInitialValues q (symbolics st) = Some vals /\
            t' = Rev2.incr_solvedConstraints t1 /\
            Rev2.generateTestcase state c (isTrue v wd) (symbolics st) vals
              a id w = Returns w')))).
Proof.
  unfold Rev2.onStateForkDecide. rewrite Rev2_retAddr_adoptState.
  destruct (heap w !! state) as [st|] eqn:Hst; [|discriminate].
  destruct (isRunningConcrete st) eqn:Hrc; [discriminate|].
  assert (Hb : (if allow then false else allow) = false) by (destruct allow; reflexivity).
  rewrite Hb. clear Hb.
  destruct (isConstantExpr (simplifyExpr st cond)) eqn:Hc.
  { intros Hret. inversion Hret; subst. split; [reflexivity|].
    exists st. split; [reflexivity|]. split; [exact Hrc|].
    left. auto. }
  destruct (find _ _) as [[a id]|] eqn:Hfind.
  2:{ intros Hret. inversion Hret; subst. split; [reflexivity|].
      exists st. split; [reflexivity|]. split; [exact Hrc|].
      right. left. auto. }
  destruct (evaluate _ _) as [v wd| | | |] eqn:Hev; try discriminate.
  destruct (getInitialValues _ _) as [vals|] eqn:Hsolve.
  - destruct (Rev2.generateTestcase _ _ _ _ _ _ _ _) as [w1|] eqn:Hgen;
      cbn [mbind Result_bind]; [|discriminate].
    intros Hret. inversion Hret; subst. split; [reflexivity|].
    exists st. split; [reflexivity|]. split; [exact Hrc|].
    right. right. exists a, id, v, wd.
    split; [exact Hc|]. split; [exact Hfind|]. split; [exact Hev|].
    right. exists vals. auto.
  - intros Hret. inversion Hret; subst. split; [reflexivity|].
    exists st. split; [reflexivity|]. split; [exact Hrc|].
    right. right. exists a, id, v, wd.
    split; [exact Hc|]. split; [exact Hfind|]. split; [exact Hev|].
    left. auto.
Qed.

(** The hook leaves the engine's store as it found it. *)
Lemma Rev2_hook_heap state cond allow t w t' w' b :
  Rev2.onStateForkDecide state cond allow t w = Returns (t', w', b) ->
  heap w' = heap w.
Proof.
  intros Hret. apply Rev2_hook_returns in Hret as (_ & st & _ & _ & Hcases).
  cbv zeta in Hcases.
  destruct Hcases as [(_ & _ & ->) | [(_ & _ & _ & ->) | Hm]];
    [reflexivity | reflexivity |].
  destruct Hm as (a & id & v & wd & _ & _ & _ &
                  [(_ & _ & ->) | (vals & _ & _ & Hgen)]); [reflexivity|].
  apply Rev2_generateTestcase_returns in Hgen as (st1 & r & _ & Hheap & _).
  exact Hheap.
Qed.

(** A run that returns is a step that returns followed by a run that
    returns. *)
Lemma Rev2_run_cons ev evs c c' :
  Rev2.run (ev :: evs) c = Returns c' ->
  exists c1, Rev2.step ev c = Returns c1 /\ Rev2.run evs c1 = Returns c'.
Proof.
  cbn [Rev2.run]. destruct (Rev2.step ev c) as [c1|] eqn:Hs; [|discriminate].
  cbn [mbind Result_bind]. intros Hr. exists c1. auto.
Qed.

Lemma Rev2_run_app evs1 evs2 c c' :
  Rev2.run (evs1 ++ evs2) c = Returns c' ->
  exists c1, Rev2.run evs1 c = Returns c1 /\ Rev2.run evs2 c1 = Returns c'.
Proof.
  revert c. induction evs1 as [|ev evs1 IH]; intros c Hr.
  - exists c. auto.
  - rewrite <- app_comm_cons in Hr. apply Rev2_run_cons in Hr as (c1 & Hs & Hr).
    apply IH in Hr as (c2 & Hr1 & Hr2). exists c2. split; [|exact Hr2].
    cbn [Rev2.run]. rewrite Hs. exact Hr1.
Qed.

(** A property kept by every returning step holds after every returning
    run. *)
Lemma Rev2_run_invariant (P : Rev2.TICooperator * World -> Prop) :
  (forall ev c c', P c -> Rev2.step ev c = Returns c' -> P c') ->
  forall evs c c', P c -> Rev2.run evs c = Returns c' -> P c'.
Proof.
  intros Hstep evs. induction evs as [|ev evs IH]; intros c c' HP Hr.
  - cbn in Hr. inversion Hr; subst. exact HP.
  - apply Rev2_run_cons in Hr as (c1 & Hs & Hr). eauto.
Qed.

Lemma Rev2_opcode_cases size data now1 now2 t w :
  Rev2.handleOpcodeInvocation size data now1 now2 t w = Rev2.onTimer now1 now2 t w \/
  exists m, Rev2.handleOpcodeInvocation size data now1 now2 t w = (t, add_message m w).
Proof.
  unfold Rev2.handleOpcodeInvocation.
  destruct (negb _); [right; eauto|].
  destruct data as [command|]; [|right; eauto].
  destruct (command =? _); [left; reflexivity | right; eauto].
Qed.

Lemma Rev2_onTimer_frame now1 now2 t w :
  Rev2.retAddr (Rev2.onTimer now1 now2 t w).1 = Rev2.retAddr t /\
  Rev2.isStepped (Rev2.onTimer now1 now2 t w).1 = Rev2.isStepped t /\
  Rev2.m_currentState (Rev2.onTimer now1 now2 t w).1 = Rev2.m_currentState t /\
  Rev2.m_timeout (Rev2.onTimer now1 now2 t w).1 = Rev2.m_timeout t.
Proof. unfold Rev2.onTimer. destruct (reached _ _); repeat split. Qed.

Lemma Rev2_opcode_frame size data now1 now2 t w :
  Rev2.retAddr (Rev2.handleOpcodeInvocation size data now1 now2 t w).1
    = Rev2.retAddr t /\
  Rev2.isStepped (Rev2.handleOpcodeInvocation size data now1 now2 t w).1
    = Rev2.isStepped t /\
  Rev2.m_currentState (Rev2.handleOpcodeInvocation size data now1 now2 t w).1
    = Rev2.m_currentState t /\
  Rev2.m_timeout (Rev2.handleOpcodeInvocation size data now1 now2 t w).1
    = Rev2.m_timeout t.
Proof.
  destruct (Rev2_opcode_cases size data now1 now2 t w) as [E | [m E]]; rewrite E.
  - apply Rev2_onTimer_frame.
  - repeat split.
Qed.

(** The registry and the budget are never written by a callback. *)
Lemma Rev2_step_retAddr ev c c' :
  Rev2.step ev c = Returns c' ->
  Rev2.retAddr c'.1 = Rev2.retAddr c.1 /\ Rev2.m_timeout c'.1 = Rev2.m_timeout c.1.
Proof.
  destruct c as [t w], c' as [t' w'].
  destruct ev as [state st cond allow | now1 now2 | size data now1 now2];
    cbn [Rev2.step fst snd].
  - destruct (Rev2.onStateForkDecide _ _ _ _ _) as [[[t1 w1] b]|] eqn:Hh;
      cbn [mbind Result_bind]; [|discriminate].
    intros Hr. inversion Hr; subst. clear Hr.
    apply Rev2_hook_returns in Hh as (_ & st0 & _ & _ & Hcases).
    cbv zeta in Hcases.
    destruct Hcases as [(_ & -> & _) | [(_ & _ & -> & _) | Hm]].
    + fields; auto.
    + fields; auto.
    + destruct Hm as (a & id & v & wd & _ & _ & _ &
                      [(_ & -> & _) | (vals & _ & -> & _)]); fields; auto.
  - intros Hr. inversion Hr as [Hr'].
    pose proof (Rev2_onTimer_frame now1 now2 t w) as F. rewrite Hr' in F.
    cbn [fst] in F. tauto.
  - intros Hr. inversion Hr as [Hr'].
    pose proof (Rev2_opcode_frame size data now1 now2 t w) as F. rewrite Hr' in F.
    cbn [fst] in F. tauto.
Qed.

Lemma Rev2_run_retAddr evs : forall c c',
  Rev2.run evs c = Returns c' -> Rev2.retAddr c'.1 = Rev2.retAddr c.1.
Proof.
  induction evs as [|ev evs IH]; intros c c' Hr.
  - cbn in Hr. inversion Hr; subst. reflexivity.
  - apply Rev2_run_cons in Hr as (c1 & Hs & Hr).
    rewrite (IH _ _ Hr). apply Rev2_step_retAddr in Hs. tauto.
Qed.

End Rev2Callbacks.

(** ** Statistics *)

Lemma wrap32_incr_l s u : wrap32 (incr32 s + u) = incr32 (wrap32 (s + u)).
Proof.
  unfold incr32, wrap32.
  rewrite Z.add_mod_idemp_l by lia. rewrite Z.add_mod_idemp_l by lia.
  f_equal. lia.
Qed.

Lemma wrap32_incr_r s u : wrap32 (s + incr32 u) = incr32 (wrap32 (s + u)).
Proof. rewrite (Z.add_comm s), wrap32_incr_l, (Z.add_comm u). reflexivity. Qed.

Section Rev2Statistics.
Context `{Engine}.

Lemma Rev2_onTimer_balanced now1 now2 t w :
  balanced t -> balanced (Rev2.onTimer now1 now2 t w).1.
Proof.
  intros [Hc Hrows]. unfold Rev2.onTimer.
  destruct (reached _ _); cbn [fst]; (split; [exact Hc|]);
    cbn [Rev2.statOfs Rev2.set_statOfs ofs_flush ofs_write flushed pending];
    rewrite app_nil_r, app_assoc; apply Forall_app; (split; [exact Hrows|]);
    (constructor; [exact Hc | constructor]).
Qed.

Lemma Rev2_onTimer_counters now1 now2 t w :
  counters (Rev2.onTimer now1 now2 t w).1 = counters t.
Proof. unfold Rev2.onTimer. destruct (reached _ _); reflexivity. Qed.

(** What one branch observation does to the counters: nothing, or one more
    constraint that is solved, or one more that is not. *)
Lemma Rev2_hook_counters state cond allow t w t' w' b :
  Rev2.onStateForkDecide state cond allow t w = Returns (t', w', b) ->
  Rev2.statOfs t' = Rev2.statOfs t /\
  (counters t' = counters t \/
   counters t' = (incr32 (Rev2.constraintsCount t),
                  incr32 (Rev2.solvedConstraints t),
                  Rev2.unsolvedConstraints t) \/
   counters t' = (incr32 (Rev2.constraintsCount t),
                  Rev2.solvedConstraints t,
                  incr32 (Rev2.unsolvedConstraints t))).
Proof.
  intros Hret. apply Rev2_hook_returns in Hret as (_ & st & _ & _ & Hcases).
  cbv zeta in Hcases.
  destruct Hcases as [(_ & -> & _) | [(_ & _ & -> & _) | Hm]].
  - unfold counters. fields; auto.
  - unfold counters. fields; auto.
  - destruct Hm as (a & id & v & wd & _ & _ & _ & [(_ & -> & _) | (vals & _ & -> & _)]);
      unfold counters; fields; auto.
Qed.

Lemma Rev2_step_counters ev t w t' w' :
  Rev2.step ev (t, w) = Returns (t', w') ->
  (Rev2.statOfs t' = Rev2.statOfs t /\
   (counters t' = counters t \/
    counters t' = (incr32 (Rev2.constraintsCount t),
                   incr32 (Rev2.solvedConstraints t),
                   Rev2.unsolvedConstraints t) \/
    counters t' = (incr32 (Rev2.constraintsCount t),
                   Rev2.solvedConstraints t,
                   incr32 (Rev2.unsolvedConstraints t)))) \/
  (exists now1 now2 w0, t' = (Rev2.onTimer now1 now2 t w0).1).
Proof.
  destruct ev as [state st cond allow | now1 now2 | size data now1 now2];
    cbn [Rev2.step fst snd].
  - destruct (Rev2.onStateForkDecide _ _ _ _ _) as [[[t1 w1] b]|] eqn:Hh;
      cbn [mbind Result_bind]; [|discriminate].
    intros Hr. inversion Hr; subst. left.
    eapply Rev2_hook_counters. exact Hh.
  - intros Hr. inversion Hr as [Hr']. right.
    exists now1, now2, w. rewrite Hr'. reflexivity.
  - intros Hr. inversion Hr as [Hr'].
    destruct (Rev2_opcode_cases size data now1 now2 t w) as [E | [m E]];
      rewrite E in Hr'.
    + right. exists now1, now2, w. rewrite Hr'. reflexivity.
    + inversion Hr'; subst. left. auto.
Qed.

Lemma Rev2_step_balanced ev c c' :
  balanced c.1 -> Rev2.step ev c = Returns c' -> balanced c'.1.
Proof.
  destruct c as [t w], c' as [t' w']. cbn [fst]. intros Hb Hs.
  apply Rev2_step_counters in Hs as [(Hofs & Hc) | (now1 & now2 & w0 & ->)].
  - destruct Hb as [Hsum Hrows]. unfold balanced. rewrite Hofs.
    split; [|exact Hrows]. unfold counters in Hc.
    destruct Hc as [Hc | [Hc | Hc]]; inversion Hc as [[Hc1 Hc2 Hc3]];
      rewrite Hc1, Hc2, Hc3.
    + exact Hsum.
    + rewrite wrap32_incr_l, Hsum. reflexivity.
    + rewrite wrap32_incr_r, Hsum. reflexivity.
  - apply Rev2_onTimer_balanced. exact Hb.
Qed.

Lemma Rev2_step_onlyIncremented ev t w t' w' :
  Rev2.step ev (t, w) = Returns (t', w') -> onlyIncremented t t'.
Proof.
  intros Hs. unfold onlyIncremented, keptOrIncremented.
  apply Rev2_step_counters in Hs as [(_ & Hc) | (now1 & now2 & w0 & ->)].
  - unfold counters in Hc.
    destruct Hc as [Hc | [Hc | Hc]]; inversion Hc as [[Hc1 Hc2 Hc3]];
      rewrite Hc1, Hc2, Hc3; auto.
  - pose proof (Rev2_onTimer_counters now1 now2 t w0) as Hc.
    unfold counters in Hc. inversion Hc as [[Hc1 Hc2 Hc3]].
    rewrite Hc1, Hc2, Hc3. auto.
Qed.

Lemma Rev2_initialized_balanced reg : balanced (Rev2.initialized reg).
Proof. split; [reflexivity | constructor]. Qed.

Lemma Rev2_run_balanced evs reg w t w' :
  Rev2.run evs (Rev2.initialized reg, w) = Returns (t, w') -> balanced t.
Proof.
  intros Hr.
  apply (Rev2_run_invariant (fun c => balanced c.1)) in Hr; [exact Hr| |].
  - intros ev c c'. apply Rev2_step_balanced.
  - apply Rev2_initialized_balanced.
Qed.

End Rev2Statistics.

Section Rev2Requests.
Context `{Engine}.

Lemma incr32_wrap32 z : incr32 (wrap32 z) = wrap32 (z + 1).
Proof. unfold incr32, wrap32. apply Z.add_mod_idemp_l. lia. Qed.

Lemma wrap32_small z : 0 <= z < 2 ^ 32 -> wrap32 z = z.
Proof. intros Hz. unfold wrap32. apply Z.mod_small. exact Hz. Qed.

Lemma Rev2_onTimer_testCases now1 now2 t w :
  testCases (Rev2.onTimer now1 now2 t w).2 = testCases w.
Proof. unfold Rev2.onTimer. destruct (reached _ _); reflexivity. Qed.

(** Counters and requests move together: a step leaves both alone, or
    counts a solved constraint and issues one request, or counts an unsolved
    constraint and issues none. *)
Lemma Rev2_step_requests ev t w t' w' :
  Rev2.step ev (t, w) = Returns (t', w') ->
  (counters t' = counters t /\ testCases w' = testCases w) \/
  (counters t' = (incr32 (Rev2.constraintsCount t),
                  incr32 (Rev2.solvedConstraints t),
                  Rev2.unsolvedConstraints t) /\
   exists r, testCases w' = testCases w ++ [r]) \/
  (counters t' = (incr32 (Rev2.constraintsCount t),
                  Rev2.solvedConstraints t,
                  incr32 (Rev2.unsolvedConstraints t)) /\
   testCases w' = testCases w).
Proof.
  destruct ev as [state st cond allow | now1 now2 | size data now1 now2];
    cbn [Rev2.step fst snd].
  - destruct (Rev2.onStateForkDecide _ _ _ _ _) as [[[t1 w1] b]|] eqn:Hh;
      cbn [mbind Result_bind]; [|discriminate].
    intros Hr. inversion Hr; subst. clear Hr.
    apply Rev2_hook_returns in Hh as (_ & st0 & _ & _ & Hcases).
    cbv zeta in Hcases.
    destruct Hcases as [(_ & -> & ->) | [(_ & _ & -> & ->) | Hm]].
    + left. split; [unfold counters; fields; reflexivity | reflexivity].
    + left. split; [unfold counters; fields; reflexivity | reflexivity].
    + destruct Hm as (a & id & v & wd & _ & _ & _ &
                      [(_ & -> & ->) | (vals & _ & -> & Hgen)]).
      * right. right. split; [unfold counters; fields; reflexivity | reflexivity].
      * right. left. split; [unfold counters; fields; reflexivity|].
        apply Rev2_generateTestcase_returns in Hgen
          as (st1 & r & _ & _ & Htc & _).
        exists r. exact Htc.
  - intros Hr. inversion Hr as [Hr']. left.
    pose proof (Rev2_onTimer_counters now1 now2 t w) as Hc.
    pose proof (Rev2_onTimer_testCases now1 now2 t w) as Htc.
    rewrite Hr' in Hc, Htc. auto.
  - intros Hr. inversion Hr as [Hr']. left.
    destruct (Rev2_opcode_cases size data now1 now2 t w) as [E | [m E]];
      rewrite E in Hr'.
    + pose proof (Rev2_onTimer_counters now1 now2 t w) as Hc.
      pose proof (Rev2_onTimer_testCases now1 now2 t w) as Htc.
      rewrite Hr' in Hc, Htc. auto.
    + inversion Hr'; subst. auto.
Qed.

Lemma requestsSince_snoc w0 w w' r :
  testCases w' = testCases w ++ [r] ->
  requestsSince w0 w' = requestsSince w0 w + 1.
Proof.
  intros E. unfold requestsSince. rewrite E, length_app. cbn [length]. lia.
Qed.

Lemma requestsSince_same w0 w w' :
  testCases w' = testCases w -> requestsSince w0 w' = requestsSince w0 w.
Proof. intros E. unfold requestsSince. rewrite E. reflexivity. Qed.

Lemma Rev2_step_tallied w0 n ev c c' :
  tallied w0 n c -> Rev2.step ev c = Returns c' -> tallied w0 (n + 1) c'.
Proof.
  destruct c as [t w], c' as [t' w'].
  intros (s & u & Hs & Hu & Hn & Es & Eu & Ec & Er) Hstep.
  cbn [fst snd] in *.
  apply Rev2_step_requests in Hstep as [(Hc & Htc) | [(Hc & r & Htc) | (Hc & Htc)]];
    unfold counters in Hc; inversion Hc as [[Hc1 Hc2 Hc3]]; clear Hc.
  - exists s, u. cbn [fst snd]. rewrite Hc1, Hc2, Hc3.
    rewrite (requestsSince_same w0 w w' Htc). repeat split; try assumption; lia.
  - exists (s + 1), u. cbn [fst snd]. rewrite Hc1, Hc2, Hc3.
    rewrite (requestsSince_snoc w0 w w' r Htc), Es, Ec, !incr32_wrap32.
    repeat split; try assumption; try lia.
    f_equal. lia.
  - exists s, (u + 1). cbn [fst snd]. rewrite Hc1, Hc2, Hc3.
    rewrite (requestsSince_same w0 w w' Htc), Eu, Ec, !incr32_wrap32.
    repeat split; try assumption; try lia.
    f_equal. lia.
Qed.

Lemma Rev2_run_tallied w0 evs : forall n c c',
  tallied w0 n c -> Rev2.run evs c = Returns c' ->
  tallied w0 (n + Z.of_nat (length evs)) c'.
Proof.
  induction evs as [|ev evs IH]; intros n c c' Ht Hr.
  - cbn in Hr. inversion Hr; subst. cbn [length]. rewrite Z.add_0_r. exact Ht.
  - apply Rev2_run_cons in Hr as (c1 & Hs & Hr).
    apply (Rev2_step_tallied w0 n ev c c1 Ht) in Hs.
    apply (IH _ _ _ Hs) in Hr. cbn [length].
    replace (n + Z.of_nat (S (length evs))) with (n + 1 + Z.of_nat (length evs)) by lia.
    exact Hr.
Qed.

Lemma Rev2_initialized_tallied reg w : tallied w 0 (Rev2.initialized reg, w).
Proof.
  exists 0, 0. unfold requestsSince. cbn. repeat split; try lia; reflexivity.
Qed.

(** One request per answer of the solver, none otherwise. *)
Lemma Rev2_hook_requests state st cond allow t w t' w' b :
  heap w !! state = Some st ->
  Rev2.onStateForkDecide state cond allow t w = Returns (t', w', b) ->
  (solverSucceeds (Rev2.retAddr t) st cond /\
   exists r, testCases w' = testCases w ++ [r]) \/
  (~ solverSucceeds (Rev2.retAddr t) st cond /\ testCases w' = testCases w).
Proof.
  intros Hst Hret.
  apply Rev2_hook_returns in Hret as (_ & st0 & Hst0 & _ & Hcases).
  rewrite Hst in Hst0. inversion Hst0; subst st0. clear Hst0.
  cbv zeta in Hcases. unfold solverSucceeds.
  destruct Hcases as [(Hc & _ & ->) | [(_ & Hf & _ & ->) | Hm]].
  - right. split; [|reflexivity]. intros (Hn & _). congruence.
  - right. split; [|reflexivity]. intros (_ & [x Hx] & _). congruence.
  - destruct Hm as (a & id & v & wd & Hc & Hf & Hev &
                    [(Hq & _ & ->) | (vals & Hq & _ & Hgen)]).
    + right. split; [|reflexivity].
      intros (_ & _ & v' & wd' & Hev' & [x Hx]).
      rewrite Hev in Hev'. inversion Hev'; subst v' wd'. congruence.
    + left. split.
      * split; [exact Hc|]. split; [eauto|]. exists v, wd. split; [exact Hev | eauto].
      * apply Rev2_generateTestcase_returns in Hgen
          as (st1 & r & _ & _ & Htc & _). eauto.
Qed.

Lemma addAll_returns objs : forall vals a,
  length objs = length vals -> exists a', addAll objs vals a = Returns a'.
Proof.
  induction objs as [|o objs IH]; intros vals a Hl; [eexists; reflexivity|].
  destruct vals as [|v vals]; [discriminate Hl|].
  cbn [addAll]. apply IH. cbn [length] in Hl. lia.
Qed.

(** With an engine that keeps to its contract on the branch, where the
    solver is asked at all, the hook returns. *)
Lemma Rev2_hook_returns_when_engine_behaves state st cond allow t w :
  heap w !! state = Some st -> isRunningConcrete st = false ->
  (isConstantExpr (simplifyExpr st cond) = false ->
   is_Some (find (Rev2.siteMatches (getPc st)) (Rev2.retAddr t)) ->
   engineBehaves st w cond) ->
  exists r, Rev2.onStateForkDecide state cond allow t w = Returns r.
Proof.
  intros Hst Hrc Heng. unfold Rev2.onStateForkDecide.
  rewrite Hst, Hrc, Rev2_retAddr_adoptState.
  destruct (isConstantExpr (simplifyExpr st cond)) eqn:Hc; [eexists; reflexivity|].
  destruct (find _ _) as [[a id]|] eqn:Hfind; [|eexists; reflexivity].
  destruct (Heng eq_refl (mk_is_Some _ _ eq_refl)) as (v & wd & Hev & Hsolve).
  rewrite Hev.
  destruct (getInitialValues _ _) as [vals|] eqn:Hq; [|eexists; reflexivity].
  destruct (Hsolve vals eq_refl) as [Hlen Hadd].
  unfold Rev2.generateTestcase, clone. rewrite Hst.
  cbn [mbind Result_bind heap set_heap set_lastStateID].
  rewrite lookup_insert_eq.
  destruct (addAll_returns _ _ ∅ Hlen) as [a' Ha]. rewrite Ha.
  cbn [mbind Result_bind].
  change (set_concolics a' (set_ID (lastStateID w + 1) st))
    with (branchedStateOf st w a').
  rewrite (Hadd a' Ha). cbn [negb]. eexists. reflexivity.
Qed.

End Rev2Requests.

Section Rev2StatisticsClaims.
Context `{Engine}.

Lemma Rev2_onEngineShutdown_rows failedOfs now1 now2 now3 t w :
  balanced t ->
  Forall rowBalanced
    (flushed (Rev2.statOfs (Rev2.onEngineShutdown failedOfs now1 now2 now3 t w).1)).
Proof.
  intros Hb. unfold Rev2.onEngineShutdown.
  destruct (if failedOfs then _ else _) as [[lines sb] fb].
  pose proof (Rev2_onTimer_balanced now1 now2 t
                (if failedOfs then set_failedStats (Some lines) w else w) Hb) as Ht.
  destruct (Rev2.onTimer _ _ _ _) as [t1 w1]. cbn [fst] in *.
  destruct Ht as [_ Hrows].
  cbn [Rev2.statOfs Rev2.set_statOfs ofs_close ofs_write flushed pending].
  rewrite app_assoc. apply Forall_app. split; [exact Hrows|].
  constructor; [exact I | constructor].
Qed.

(** C2. After every run of branch observations, timer ticks and guest
    requests that returns: [solvedConstraints + unsolvedConstraints ==
    constraintsCount] in the arithmetic of the three [unsigned int]
    counters; every row the timer has flushed to [Solving.stats] and every
    row the shutdown adds is balanced in the same way; and whatever comes
    next leaves each counter alone or increments it. As long as fewer than
    [2 ^ 32] events were processed no counter has wrapped and the equation
    holds of the numbers themselves. *)
Theorem counters_balanced_and_only_incremented evs reg w t w' :
  Rev2.run evs (Rev2.initialized reg, w) = Returns (t, w') ->
  wrap32 (Rev2.solvedConstraints t + Rev2.unsolvedConstraints t)
    = Rev2.constraintsCount t /\
  Forall rowBalanced (flushed (Rev2.statOfs t)) /\
  (forall failedOfs now1 now2 now3,
     Forall rowBalanced
       (flushed (Rev2.statOfs
                   (Rev2.onEngineShutdown failedOfs now1 now2 now3 t w').1))) /\
  (forall ev t2 w2,
     Rev2.step ev (t, w') = Returns (t2, w2) -> onlyIncremented t t2) /\
  (Z.of_nat (length evs) < 2 ^ 32 ->
   Rev2.solvedConstraints t + Rev2.unsolvedConstraints t = Rev2.constraintsCount t).
Proof.
  intros Hr. pose proof (Rev2_run_balanced _ _ _ _ _ Hr) as Hb.
  split; [exact (proj1 Hb)|]. split.
  { destruct Hb as [_ Hrows]. apply Forall_app in Hrows. exact (proj1 Hrows). }
  split.
  { intros. apply Rev2_onEngineShutdown_rows. exact Hb. }
  split.
  { intros ev t2 w2. apply Rev2_step_onlyIncremented. }
  intros Hlen.
  apply (Rev2_run_tallied w _ 0 _ _ (Rev2_initialized_tallied reg w)) in Hr.
  destruct Hr as (s & u & Hs & Hu & Hn & Es & Eu & Ec & _).
  cbn [fst] in *. rewrite Es, Eu, Ec, !wrap32_small by lia. reflexivity.
Qed.

(** C3. Over every run that returns, the solved counter is the number of
    requests made to the test-case generator, reduced to [unsigned int];
    with fewer than [2 ^ 32] events the two numbers are equal. Step by
    step: [solvedConstraints] is incremented exactly when one request is
    issued, and is left alone exactly when none is; and the next branch
    observation issues one request exactly when the solver is asked and
    answers, none when it fails or is not asked. *)
Theorem requests_equal_solved evs reg w t w' :
  Rev2.run evs (Rev2.initialized reg, w) = Returns (t, w') ->
  Rev2.solvedConstraints t = wrap32 (requestsSince w w') /\
  (Z.of_nat (length evs) < 2 ^ 32 ->
   Rev2.solvedConstraints t = requestsSince w w') /\
  (forall ev t2 w2,
     Rev2.step ev (t, w') = Returns (t2, w2) ->
     (Rev2.solvedConstraints t2 = incr32 (Rev2.solvedConstraints t) /\
      requestsSince w' w2 = 1) \/
     (Rev2.solvedConstraints t2 = Rev2.solvedConstraints t /\
      requestsSince w' w2 = 0)) /\
  (forall state st cond allow t2 w2,
     Rev2.step (Rev2.BranchObserved state st cond allow) (t, w') = Returns (t2, w2) ->
     (solverSucceeds reg st cond /\ requestsSince w' w2 = 1) \/
     (~ solverSucceeds reg st cond /\ requestsSince w' w2 = 0)).
Proof.
  intros Hr.
  pose proof (Rev2_run_retAddr _ _ _ Hr) as Hreg.
  cbn [fst Rev2.retAddr Rev2.initialized] in Hreg.
  apply (Rev2_run_tallied w _ 0 _ _ (Rev2_initialized_tallied reg w)) in Hr.
  destruct Hr as (s & u & Hs & Hu & Hn & Es & Eu & Ec & Er).
  cbn [fst snd] in *. split; [rewrite Er; exact Es|]. split.
  { intros Hlen. rewrite Er, Es. apply wrap32_small. lia. }
  split.
  - intros ev t2 w2 Hstep.
    apply Rev2_step_requests in Hstep as [(Hc & Htc) | [(Hc & r & Htc) | (Hc & Htc)]];
      unfold counters in Hc; inversion Hc as [[Hc1 Hc2 Hc3]]; clear Hc.
    + right. split; [reflexivity|]. unfold requestsSince. rewrite Htc. lia.
    + left. split; [reflexivity|]. unfold requestsSince.
      rewrite Htc, length_app. cbn [length]. lia.
    + right. split; [reflexivity|]. unfold requestsSince. rewrite Htc. lia.
  - intros state st cond allow t2 w2. cbn [Rev2.step fst snd].
    destruct (Rev2.onStateForkDecide _ _ _ _ _) as [[[t1 w1] b]|] eqn:Hh;
      cbn [mbind Result_bind]; [|discriminate].
    intros Hret. inversion Hret; subst. clear Hret.
    apply (Rev2_hook_requests state st) in Hh;
      [|cbn [heap set_heap]; apply lookup_insert_eq].
    cbn [testCases set_heap] in Hh.
    destruct Hh as [(Hok & r & Htc) | (Hno & Htc)].
    + left. split; [exact Hok|]. unfold requestsSince.
      rewrite Htc, length_app. cbn [length]. lia.
    + right. split; [exact Hno|]. unfold requestsSince. rewrite Htc. lia.
Qed.

End Rev2StatisticsClaims.

Lemma counters_balanced_and_only_incremented_witness :
  Rev2.run (H := toyEngine) shortRun (Rev2.initialized oneSite, emptyWorld)
    = Returns shortRunEnd /\
  Rev2.constraintsCount shortRunEnd.1 = 1 /\
  wrap32 (Rev2.solvedConstraints shortRunEnd.1 + Rev2.unsolvedConstraints shortRunEnd.1)
    = Rev2.constraintsCount shortRunEnd.1 /\
  Forall rowBalanced (flushed (Rev2.statOfs shortRunEnd.1)) /\
  Rev2.solvedConstraints shortRunEnd.1 + Rev2.unsolvedConstraints shortRunEnd.1
    = Rev2.constraintsCount shortRunEnd.1.
Proof.
  assert (Hrun : Rev2.run (H := toyEngine) shortRun
                   (Rev2.initialized oneSite, emptyWorld)
                 = Returns (shortRunEnd.1, shortRunEnd.2))
    by (vm_compute; reflexivity).
  split; [exact Hrun|]. split; [reflexivity|].
  destruct (counters_balanced_and_only_incremented (H := toyEngine)
              shortRun oneSite emptyWorld shortRunEnd.1 shortRunEnd.2 Hrun)
    as (Hsum & Hrows & _ & _ & Hexact).
  split; [exact Hsum|]. split; [exact Hrows|].
  apply Hexact. vm_compute. reflexivity.
Defined.

Lemma requests_equal_solved_witness :
  Rev2.run (H := toyEngine) shortRun (Rev2.initialized oneSite, emptyWorld)
    = Returns shortRunEnd /\
  length (testCases shortRunEnd.2) = 1%nat /\
  Rev2.solvedConstraints shortRunEnd.1 = requestsSince emptyWorld shortRunEnd.2.
Proof.
  assert (Hrun : Rev2.run (H := toyEngine) shortRun
                   (Rev2.initialized oneSite, emptyWorld)
                 = Returns (shortRunEnd.1, shortRunEnd.2))
    by (vm_compute; reflexivity).
  split; [exact Hrun|]. split; [reflexivity|].
  destruct (requests_equal_solved (H := toyEngine)
              shortRun oneSite emptyWorld shortRunEnd.1 shortRunEnd.2 Hrun)
    as (_ & Hexact & _).
  apply Hexact. vm_compute. reflexivity.
Defined.

(** ** Visited sites *)

Section Rev2Visited.
Context `{Engine}.

Lemma Rev2_isStepped_adoptState state t :
  Rev2.isStepped (Rev2.adoptState state t) = Rev2.isStepped t.
Proof. unfold Rev2.adoptState. destruct (Rev2.m_currentState t); reflexivity. Qed.

Lemma Rev2_elem_markStepped a a0 t :
  a ∈ Rev2.isStepped (Rev2.markStepped a0 t) <-> a ∈ Rev2.isStepped t \/ a = a0.
Proof.
  unfold Rev2.markStepped. case_bool_decide as Hin; cbn [Rev2.isStepped Rev2.set_isStepped].
  - split; [auto | intros [Hi | ->]; assumption].
  - rewrite elem_of_union, elem_of_singleton. tauto.
Qed.

(** After a step the stepped addresses are those of before and the one the
    step marks. *)
Lemma Rev2_step_isStepped ev t w t' w' a :
  Rev2.step ev (t, w) = Returns (t', w') ->
  a ∈ Rev2.isStepped t' <-> a ∈ Rev2.isStepped t \/ marks (Rev2.retAddr t) ev a.
Proof.
  destruct ev as [state st cond allow | now1 now2 | size data now1 now2];
    cbn [Rev2.step fst snd marks].
  - destruct (Rev2.onStateForkDecide _ _ _ _ _) as [[[t1 w1] b]|] eqn:Hh;
      cbn [mbind Result_bind]; [|discriminate].
    intros Hr. inversion Hr; subst. clear Hr.
    apply Rev2_hook_returns in Hh as (_ & st0 & Hst & _ & Hcases).
    cbn [heap set_heap] in Hst. rewrite lookup_insert_eq in Hst.
    inversion Hst; subst st0. clear Hst. cbv zeta in Hcases.
    destruct Hcases as [(Hc & -> & _) | [(Hc & Hf & -> & _) | Hm]].
    + fields; (split; [auto | intros [Hi | [Hn _]]; [exact Hi | congruence]]).
    + fields; (split; [auto | intros [Hi | [_ [id Hid]]]; [exact Hi | congruence]]).
    + destruct Hm as (a0 & id & v & wd & Hc & Hf & _ & Ht').
      assert (Hmark : a ∈ Rev2.isStepped (Rev2.markStepped a0 (Rev2.adoptState state t))
                      <-> a ∈ Rev2.isStepped t \/ a = a0).
      { rewrite Rev2_elem_markStepped, Rev2_isStepped_adoptState. reflexivity. }
      assert (Hiff : a = a0 <->
                     isConstantExpr (simplifyExpr st cond) = false /\
                     exists cmpId, find (Rev2.siteMatches (getPc st)) (Rev2.retAddr t)
                                   = Some (a, cmpId)).
      { split.
        - intros ->. split; [exact Hc | eauto].
        - intros [_ [id' Hid]]. congruence. }
      rewrite <- Hiff, <- Hmark.
      destruct Ht' as [(_ & -> & _) | (vals & _ & -> & _)]; reflexivity.
  - intros Hr. inversion Hr as [Hr'].
    pose proof (Rev2_onTimer_frame now1 now2 t w) as F. rewrite Hr' in F.
    cbn [fst] in F. destruct F as (_ & -> & _). tauto.
  - intros Hr. inversion Hr as [Hr'].
    pose proof (Rev2_opcode_frame size data now1 now2 t w) as F. rewrite Hr' in F.
    cbn [fst] in F. destruct F as (_ & -> & _). tauto.
Qed.

Lemma Rev2_run_isStepped evs : forall t w t' w' a,
  Rev2.run evs (t, w) = Returns (t', w') ->
  a ∈ Rev2.isStepped t' <->
  a ∈ Rev2.isStepped t \/ Exists (fun ev => marks (Rev2.retAddr t) ev a) evs.
Proof.
  induction evs as [|ev evs IH]; intros t w t' w' a Hr.
  - cbn in Hr. inversion Hr; subst. rewrite Exists_nil. tauto.
  - apply Rev2_run_cons in Hr as ([t1 w1] & Hs & Hr).
    rewrite (IH _ _ _ _ a Hr), (Rev2_step_isStepped _ _ _ _ _ a Hs).
    apply Rev2_step_retAddr in Hs as [E _]. cbn [fst] in E. rewrite E.
    rewrite Exists_cons. tauto.
Qed.

Lemma Rev2_visited_iff t a : Rev2.visited t a = true <-> a ∈ Rev2.isStepped t.
Proof. unfold Rev2.visited. apply bool_decide_eq_true. Qed.

End Rev2Visited.

(** C4, as amended. For every site address: the visited flag is false after
    [initialize]; after a run that returns it is true exactly when some
    branch observation of the run marked the site, that is, had a
    non-constant simplified condition and found the site as the first entry
    of the registry whose window holds the program counter; so it turns
    true at the first such observation; once true it stays true whatever
    follows; and marking a visited site changes nothing. *)
Theorem visited_set_once_by_the_marking_observation `{Engine} (reg : list (Z * Z))
  (address : Z) :
  Rev2.visited (Rev2.initialized reg) address = false /\
  (forall evs w t w',
     Rev2.run evs (Rev2.initialized reg, w) = Returns (t, w') ->
     Rev2.visited t address = true <->
     Exists (fun ev => marks reg ev address) evs) /\
  (forall evs c c',
     Rev2.run evs c = Returns c' ->
     Rev2.visited c.1 address = true -> Rev2.visited c'.1 address = true) /\
  (forall t, Rev2.visited t address = true -> Rev2.markStepped address t = t).
Proof.
  split; [reflexivity|]. split; [|split].
  - intros evs w t w' Hr. rewrite Rev2_visited_iff.
    rewrite (Rev2_run_isStepped evs _ _ _ _ address Hr).
    cbn [Rev2.isStepped Rev2.retAddr Rev2.initialized].
    rewrite elem_of_empty. tauto.
  - intros evs [t w] [t' w'] Hr. cbn [fst]. rewrite !Rev2_visited_iff.
    rewrite (Rev2_run_isStepped evs _ _ _ _ address Hr). auto.
  - intros t Hv. unfold Rev2.markStepped. unfold Rev2.visited in Hv.
    rewrite Hv. reflexivity.
Qed.

Lemma visited_set_once_by_the_marking_observation_witness :
  Rev2.run (H := toyEngine) shortRun (Rev2.initialized oneSite, emptyWorld)
    = Returns shortRunEnd /\
  Exists (fun ev => marks (H := toyEngine) oneSite ev 0x1000) shortRun /\
  Rev2.visited shortRunEnd.1 0x1000 = true.
Proof.
  assert (Hrun : Rev2.run (H := toyEngine) shortRun
                   (Rev2.initialized oneSite, emptyWorld)
                 = Returns (shortRunEnd.1, shortRunEnd.2))
    by (vm_compute; reflexivity).
  assert (Hm : Exists (fun ev => marks (H := toyEngine) oneSite ev 0x1000) shortRun).
  { apply Exists_cons_hd. split; [reflexivity | exists 7; reflexivity]. }
  split; [exact Hrun|]. split; [exact Hm|].
  exact (proj2 (proj1 (proj2 (visited_set_once_by_the_marking_observation
                                (H := toyEngine) oneSite 0x1000))
                  shortRun emptyWorld shortRunEnd.1 shortRunEnd.2 Hrun) Hm).
Defined.

(** C4, as stated, fails. The claim has the flag of a site turn true on the
    first branch observation whose program counter is in the window of the
    site. With the sites [0x1000] and [0x1008] registered (this is the
    registry [readSelectedRetAddr] builds from the two lines [1000 1] and
    [1008 2]) the first observation, at [pc = 0x100a] with a non-constant
    condition, is in the window of [0x1008]; the [find_if] stops at
    [0x1000], and after the hook [0x1008] is still not visited. And with
    the one site [0x1000], an observation at [pc = 0x1005] whose condition
    is a constant returns before the lookup and leaves [0x1000] not
    visited. *)
Lemma observation_in_window_leaves_site_unvisited :
  Rev2.readSelectedRetAddr 5 (Some "1000 1
1008 2"%string) 0 0 [] emptyWorld = Some (twoSites, emptyWorld) /\
  Rev2.siteMatches 0x100a (0x1008, 2) = true /\
  isConstantExpr (simplifyExpr (Engine := toyEngine) (stateAt 0x100a) condX) = false /\
  (exists t w',
     Rev2.run (H := toyEngine)
       [Rev2.BranchObserved 1 (stateAt 0x100a) condX true]
       (Rev2.initialized twoSites, emptyWorld) = Returns (t, w') /\
     Rev2.visited t 0x1008 = false /\
     Rev2.visited t 0x1000 = true) /\
  Rev2.siteMatches 0x1005 (0x1000, 7) = true /\
  (exists t w',
     Rev2.run (H := toyEngine)
       [Rev2.BranchObserved 1 (stateAt 0x1005) (ConstantExpr 1 ExprBool) true]
       (Rev2.initialized oneSite, emptyWorld) = Returns (t, w') /\
     Rev2.visited t 0x1000 = false).
Proof.
  split; [vm_compute; reflexivity|]. split; [reflexivity|]. split; [reflexivity|].
  split; [|split; [reflexivity|]].
  - eexists _, _. split; [vm_compute; reflexivity|].
    split; vm_compute; reflexivity.
  - eexists _, _. split; [vm_compute; reflexivity|].
    vm_compute; reflexivity.
Qed.

(** ** Evaluation of the condition *)

Section Evaluation.
Context `{Engine}.

Lemma Rev2_hook_unmatched state st cond allow t w :
  heap w !! state = Some st -> isRunningConcrete st = false ->
  isConstantExpr (simplifyExpr st cond) = false ->
  find (Rev2.siteMatches (getPc st)) (Rev2.retAddr t) = None ->
  Rev2.onStateForkDecide state cond allow t w
    = Returns (Rev2.adoptState state t, w, false).
Proof.
  intros Hst Hrc Hc Hf. unfold Rev2.onStateForkDecide.
  rewrite Hst, Hrc, Hc, Rev2_retAddr_adoptState, Hf.
  destruct allow; reflexivity.
Qed.

Lemma Rev2_hook_matched_not_evaluable state st cond allow t w :
  heap w !! state = Some st -> isRunningConcrete st = false ->
  isConstantExpr (simplifyExpr st cond) = false ->
  is_Some (find (Rev2.siteMatches (getPc st)) (Rev2.retAddr t)) ->
  isConstantExpr (evaluate (concolics st) (simplifyExpr st cond)) = false ->
  Rev2.onStateForkDecide state cond allow t w = Fatal CheckFailed.
Proof.
  intros Hst Hrc Hc [[a id] Hf] He. unfold Rev2.onStateForkDecide.
  rewrite Hst, Hrc, Hc, Rev2_retAddr_adoptState, Hf.
  destruct (evaluate _ _); [discriminate He | reflexivity ..].
Qed.

Lemma Rev1_hook_not_evaluable state st cond allow t w :
  heap w !! state = Some st -> isRunningConcrete st = false ->
  isConstantExpr (simplifyExpr st cond) = false ->
  isConstantExpr (evaluate (concolics st) (simplifyExpr st cond)) = false ->
  Rev1.onStateForkDecide state cond allow t w = Fatal CheckFailed.
Proof.
  intros Hst Hrc Hc He. unfold Rev1.onStateForkDecide.
  rewrite Hst, Hrc, Hc.
  destruct (evaluate _ _); [discriminate He | reflexivity ..].
Qed.

(** C5, as amended. Take a branch observed on a live state in symbolic
    mode whose simplified condition is not a constant. In [Rev2] the
    registry is searched first: when no site matches, the hook returns with
    nothing done but the adoption of the tracked state, whatever the
    evaluation of the condition would give; when a site matches, the
    condition is evaluated under the current concrete assignment and a
    result that is not a constant is fatal. In [Rev1] the evaluation comes
    before the search, and a result that is not a constant is fatal whether
    or not a site matches. *)
Theorem evaluation_after_lookup state st cond allow w :
  heap w !! state = Some st -> isRunningConcrete st = false ->
  isConstantExpr (simplifyExpr st cond) = false ->
  (forall t,
     find (Rev2.siteMatches (getPc st)) (Rev2.retAddr t) = None ->
     Rev2.onStateForkDecide state cond allow t w
       = Returns (Rev2.adoptState state t, w, false)) /\
  (forall t,
     is_Some (find (Rev2.siteMatches (getPc st)) (Rev2.retAddr t)) ->
     isConstantExpr (evaluate (concolics st) (simplifyExpr st cond)) = false ->
     Rev2.onStateForkDecide state cond allow t w = Fatal CheckFailed) /\
  (forall t1,
     isConstantExpr (evaluate (concolics st) (simplifyExpr st cond)) = false ->
     Rev1.onStateForkDecide state cond allow t1 w = Fatal CheckFailed).
Proof.
  intros Hst Hrc Hc. split; [|split].
  - intros t. apply (Rev2_hook_unmatched state st); assumption.
  - intros t. apply (Rev2_hook_matched_not_evaluable state st); assumption.
  - intros t1. apply (Rev1_hook_not_evaluable state st); assumption.
Qed.

End Evaluation.

Lemma evaluation_after_lookup_witness :
  isConstantExpr (evaluate (Engine := toyEngine) (concolics (stateAt 0x1005))
                    condUnbound) = false /\
  Rev2.onStateForkDecide (H := toyEngine) 1%positive condUnbound true
    (Rev2.initialized oneSite) (worldWith (stateAt 0x1005)) = Fatal CheckFailed /\
  Rev2.onStateForkDecide (H := toyEngine) 1%positive condUnbound true
    (Rev2.initialized []) (worldWith (stateAt 0x1005))
    = Returns (Rev2.adoptState 1%positive (Rev2.initialized []),
               worldWith (stateAt 0x1005), false).
Proof.
  pose proof (evaluation_after_lookup (H := toyEngine) 1%positive
                (stateAt 0x1005) condUnbound true (worldWith (stateAt 0x1005))
                ltac:(reflexivity) ltac:(reflexivity) ltac:(reflexivity))
    as (Hnone & Hsome & _).
  split; [reflexivity|]. split.
  - apply Hsome; [exists (0x1000, 7); reflexivity | reflexivity].
  - apply Hnone. reflexivity.
Defined.

(** C5, as stated, fails on [Rev2]. The claim has a non-constant condition
    whose evaluation does not reduce to a constant abort the run also where
    no site matches. With the one site [0x1000] registered, a branch at
    [pc = 0x2000] on a condition over an object without concrete value
    (its evaluation is not a constant) is in no window: the hook of [Rev2]
    returns, having adopted the state and done nothing else. *)
Lemma unmatched_branch_returns_without_evaluation :
  isConstantExpr (simplifyExpr (Engine := toyEngine) (stateAt 0x2000) condUnbound)
    = false /\
  isConstantExpr
    (evaluate (Engine := toyEngine) (concolics (stateAt 0x2000))
       (simplifyExpr (Engine := toyEngine) (stateAt 0x2000) condUnbound)) = false /\
  find (Rev2.siteMatches (getPc (stateAt 0x2000))) oneSite = None /\
  Rev2.onStateForkDecide (H := toyEngine) 1%positive condUnbound true
    (Rev2.initialized oneSite) (worldWith (stateAt 0x2000))
    = Returns (Rev2.adoptState 1%positive (Rev2.initialized oneSite),
               worldWith (stateAt 0x2000), false) /\
  Rev1.onStateForkDecide (H := toyEngine) 1%positive condUnbound true
    (Rev1.initialized [0x1000]) (worldWith (stateAt 0x2000)) = Fatal CheckFailed.
Proof.
  repeat split; vm_compute; reflexivity.
Qed.

(** ** Loading the registry *)

Lemma extract_not_good base max s old :
  good s = false ->
  extract base max s old
    = ({| failbit := true; eofbit := eofbit s; rdbuf := rdbuf s |}, old).
Proof. intros Hg. unfold extract. rewrite Hg. reflexivity. Qed.

(** On the stream of a file that could not be opened a turn of either loop
    reads nothing, keeps the variables and leaves the stream as it is. *)
Lemma Rev2_readBody_missing a c reg :
  Rev2.readBody (ifstream_open None, a, c, reg)
    = (ifstream_open None, a, c, Rev2.emplace (a, c) reg).
Proof. reflexivity. Qed.

Lemma Rev1_readBody_missing a reg :
  Rev1.readBody (ifstream_open None, a, reg) = (ifstream_open None, a, reg ++ [a]).
Proof. reflexivity. Qed.

Lemma Rev2_readLoop_missing fuel : forall a c reg,
  Rev2.readLoop fuel (ifstream_open None, a, c, reg) = None.
Proof.
  induction fuel as [|fuel IH]; intros a c reg; [reflexivity|].
  cbn [Rev2.readLoop]. cbn [ifstream_open eofbit].
  change {| failbit := true; eofbit := false; rdbuf := [] |} with (ifstream_open None).
  rewrite Rev2_readBody_missing. apply IH.
Qed.

Lemma Rev1_readLoop_missing fuel : forall a reg,
  Rev1.readLoop fuel (ifstream_open None, a, reg) = None.
Proof.
  induction fuel as [|fuel IH]; intros a reg; [reflexivity|].
  cbn [Rev1.readLoop]. cbn [ifstream_open eofbit].
  change {| failbit := true; eofbit := false; rdbuf := [] |} with (ifstream_open None).
  rewrite Rev1_readBody_missing. apply IH.
Qed.

(** After [n] turns on a missing file the vector of [Rev1] has grown by [n]
    copies of the uninitialised variable; the map of [Rev2] holds it from
    the first turn on. *)
Lemma Rev1_readBody_missing_iter n a reg :
  Nat.iter n Rev1.readBody (ifstream_open None, a, reg)
    = (ifstream_open None, a, reg ++ repeat a n).
Proof.
  induction n as [|n IH].
  - cbn [Nat.iter nat_rect repeat]. rewrite app_nil_r. reflexivity.
  - change (Rev1.readBody (Nat.iter n Rev1.readBody (ifstream_open None, a, reg))
            = (ifstream_open None, a, reg ++ repeat a (S n))).
    rewrite IH, Rev1_readBody_missing, <- app_assoc.
    do 2 f_equal. symmetry. apply repeat_cons.
Qed.

(** With a readable file the loops end, here after three turns; the last
    turn, on the white space that ends the file, repeats the last entry in
    the vector of [Rev1]. *)
Example readSelectedRetAddr_readable :
  Rev2.readSelectedRetAddr 4 (Some "1000 7
2000 3
"%string) 0 0 [] emptyWorld = Some ([(0x1000, 7); (0x2000, 3)], emptyWorld) /\
  Rev1.readSelectedRetAddr 4 (Some "1000
2000
"%string) 0 [] emptyWorld = Some ([0x1000; 0x2000; 0x2000], emptyWorld).
Proof. split; vm_compute; reflexivity. Qed.

(** A sign is read with the number and a minus negates it in [size_t]; a
    [0x] with no digit after it is read, fails and, at the end of the file,
    ends the loop with the address 0 and the id left as it was. *)
Example readSelectedRetAddr_sign_and_prefix :
  Rev2.readSelectedRetAddr 3 (Some "-1 5"%string) 0 0 [] emptyWorld
    = Some ([(2 ^ 64 - 1, 5)], emptyWorld) /\
  Rev2.readSelectedRetAddr 3 (Some "0x"%string) 7 9 [] emptyWorld
    = Some ([(0, 9)], emptyWorld).
Proof. split; vm_compute; reflexivity. Qed.

(** C6 (the code breaks it). With [ret_addr] missing the stream has
    [failbit] set and [eofbit] clear; no extraction sets [eofbit] on such a
    stream, so [while (!ifs.eof())] never ends: whatever the number of turns
    allowed, [readSelectedRetAddr] has not returned, in either revision, and
    after the first turn the registry of [Rev2] is not empty. *)
Theorem readSelectedRetAddr_missing_file_never_returns
  (fuel : nat) (instRetAddr cmpId : Z) (w : World) :
  Rev2.readSelectedRetAddr fuel None instRetAddr cmpId [] w = None /\
  Rev1.readSelectedRetAddr fuel None instRetAddr [] w = None /\
  Rev2.initialize fuel None instRetAddr cmpId w = None /\
  Rev2.readBody (ifstream_open None, instRetAddr, cmpId, [])
    = (ifstream_open None, instRetAddr, cmpId, [(instRetAddr, cmpId)]).
Proof.
  assert (H2 : Rev2.readSelectedRetAddr fuel None instRetAddr cmpId [] w = None).
  { unfold Rev2.readSelectedRetAddr. rewrite Rev2_readLoop_missing. reflexivity. }
  split; [exact H2|]. split; [|split].
  - unfold Rev1.readSelectedRetAddr. rewrite Rev1_readLoop_missing. reflexivity.
  - unfold Rev2.initialize. rewrite H2. reflexivity.
  - reflexivity.
Qed.

(** ** The observing state *)

(** C7. When the branch hook returns, the engine's store is what it was on
    entry: the observing state is at its address with the constraint set
    and the concrete assignment it had, and no clone is left. The
    alternate-path constraint went to the copy [tmpConstraints] and, where
    a test case was requested, to the clone handed to the generator, whose
    constraint set is the observing state's followed by that constraint. *)
Theorem hook_leaves_observing_state `{Engine} state st cond allow t w t' w' b :
  heap w !! state = Some st ->
  Rev2.onStateForkDecide state cond allow t w = Returns (t', w', b) ->
  heap w' = heap w /\
  heap w' !! state = Some st /\
  (testCases w' = testCases w \/
   exists r v wd,
     testCases w' = testCases w ++ [r] /\
     evaluate (concolics st) (simplifyExpr st cond) = ConstantExpr v wd /\
     constraints (tc_state r)
       = constraints st ++ [branchedConstraint (isTrue v wd) (simplifyExpr st cond)]).
Proof.
  intros Hst Hret.
  apply Rev2_hook_returns in Hret as (_ & st0 & Hst0 & _ & Hcases).
  rewrite Hst in Hst0. inversion Hst0; subst st0. clear Hst0.
  cbv zeta in Hcases.
  assert (Hgoal : heap w' = heap w /\
            (testCases w' = testCases w \/
             exists r v wd,
               testCases w' = testCases w ++ [r] /\
               evaluate (concolics st) (simplifyExpr st cond) = ConstantExpr v wd /\
               constraints (tc_state r)
                 = constraints st ++
                   [branchedConstraint (isTrue v wd) (simplifyExpr st cond)])).
  { destruct Hcases as [(_ & _ & ->) | [(_ & _ & _ & ->) | Hm]]; [auto | auto |].
    destruct Hm as (a & id & v & wd & _ & _ & Hev &
                    [(_ & _ & ->) | (vals & _ & _ & Hgen)]); [auto|].
    apply Rev2_generateTestcase_returns in Hgen
      as (st1 & r & Hst1 & Hheap & Htc & _ & _ & _ & _ & Hcs).
    rewrite Hst in Hst1. inversion Hst1; subst st1.
    split; [exact Hheap|]. right. exists r, v, wd. auto. }
  destruct Hgoal as [Hheap Htc]. split; [exact Hheap|].
  split; [rewrite Hheap; exact Hst | exact Htc].
Qed.

Lemma hook_leaves_observing_state_witness :
  exists t' w',
    Rev2.onStateForkDecide (H := toyEngine) 1%positive condX true
      (Rev2.initialized oneSite) (worldWith (stateAt 0x1005))
      = Returns (t', w', false) /\
    length (testCases w') = 1%nat /\
    heap w' !! 1%positive = Some (stateAt 0x1005).
Proof.
  eexists _, _. split; [vm_compute; reflexivity|]. split; [reflexivity|].
  eapply (hook_leaves_observing_state (H := toyEngine) 1%positive (stateAt 0x1005)
            condX true (Rev2.initialized oneSite) (worldWith (stateAt 0x1005))).
  - reflexivity.
  - vm_compute. reflexivity.
Defined.

(** ** Timer and shutdown *)

Lemma reached_below now budget : (now < budget)%Q -> reached now budget = false.
Proof.
  intros Hlt. unfold reached. destruct (Qle_bool budget now) eqn:E; [|reflexivity].
  apply Qle_bool_iff in E. exfalso. exact (Qlt_not_le _ _ Hlt E).
Qed.

Lemma reached_at_or_above now budget : (budget <= now)%Q -> reached now budget = true.
Proof. intros Hle. unfold reached. apply Qle_bool_iff. exact Hle. Qed.

(** C8. A timer tick on any object: the row of the first clock reading and
    the three counters is appended to [Solving.stats] and everything
    written is flushed; when the second clock reading is below the budget
    no call of [terminateState] is made, and when it is at or above the
    budget exactly one is made, on the tracked state with the reason
    "timeout". *)
Theorem timer_tick_row_and_timeout `{Engine} now1 now2 t w :
  exists t' w',
    Rev2.step (Rev2.TimerTick now1 now2) (t, w) = Returns (t', w') /\
    flushed (Rev2.statOfs t')
      = flushed (Rev2.statOfs t) ++ pending (Rev2.statOfs t) ++
        [StatRow now1 (Rev2.solvedConstraints t) (Rev2.unsolvedConstraints t)
           (Rev2.constraintsCount t)] /\
    pending (Rev2.statOfs t') = [] /\
    ((now2 < Rev2.m_timeout t)%Q -> terminated w' = terminated w) /\
    ((Rev2.m_timeout t <= now2)%Q ->
     terminated w' = terminated w ++ [(Rev2.m_currentState t, "timeout"%string)]).
Proof.
  exists (Rev2.onTimer now1 now2 t w).1, (Rev2.onTimer now1 now2 t w).2.
  split; [cbn [Rev2.step fst snd]; destruct (Rev2.onTimer now1 now2 t w); reflexivity|].
  unfold Rev2.onTimer.
  cbn [Rev2.m_timeout Rev2.set_statOfs Rev2.m_currentState].
  split; [destruct (reached _ _); reflexivity|].
  split; [destruct (reached _ _); reflexivity|].
  split; intros Hq.
  - rewrite (reached_below _ _ Hq). reflexivity.
  - rewrite (reached_at_or_above _ _ Hq). reflexivity.
Qed.

Lemma timer_tick_row_and_timeout_witness :
  (exists t' w',
     Rev2.step (H := toyEngine) (Rev2.TimerTick 12 12)
       (Rev2.initialized oneSite, emptyWorld) = Returns (t', w') /\
     terminated w' = []) /\
  (exists t' w',
     Rev2.step (H := toyEngine) (Rev2.TimerTick 12 3600000)
       (Rev2.initialized oneSite, emptyWorld) = Returns (t', w') /\
     terminated w' = [(None, "timeout"%string)]).
Proof.
  split.
  - destruct (timer_tick_row_and_timeout (H := toyEngine) 12 12
                (Rev2.initialized oneSite) emptyWorld)
      as (t' & w' & Hs & _ & _ & Hbelow & _).
    exists t', w'. split; [exact Hs|]. apply Hbelow. reflexivity.
  - destruct (timer_tick_row_and_timeout (H := toyEngine) 12 3600000
                (Rev2.initialized oneSite) emptyWorld)
      as (t' & w' & Hs & _ & _ & _ & Habove).
    exists t', w'. split; [exact Hs|]. apply Habove.
    apply Qle_bool_iff. reflexivity.
Defined.

Lemma wrap32_0 : wrap32 0 = 0.
Proof. reflexivity. Qed.

(** The loop of the shutdown: the lines are those of the sites that are not
    stepped, in registry order, and the tallies count the two kinds. *)
Lemma Rev2_tally_spec stepped reg : forall acc x y,
  Rev2.tally stepped reg acc (wrap32 x) (wrap32 y)
  = (acc ++ List.filter (fun e => negb (bool_decide (e.1 ∈ stepped))) reg,
     wrap32 (x + Z.of_nat (length (List.filter (fun e => bool_decide (e.1 ∈ stepped)) reg))),
     wrap32 (y + Z.of_nat (length (List.filter (fun e => negb (bool_decide (e.1 ∈ stepped))) reg)))).
Proof.
  induction reg as [|it reg IH]; intros acc x y; cbn [Rev2.tally List.filter].
  - cbn [length]. rewrite app_nil_r, !Z.add_0_r. reflexivity.
  - destruct (bool_decide (it.1 ∈ stepped)); cbn [negb].
    + rewrite incr32_wrap32, IH. cbn [length]. do 2 f_equal. f_equal. lia.
    + rewrite incr32_wrap32, IH, <- app_assoc. cbn [length app]. f_equal. f_equal. lia.
Qed.

Lemma filter_lengths {A : Type} (f : A -> bool) (l : list A) :
  (length (List.filter f l) + length (List.filter (fun x => negb (f x)) l))%nat
  = length l.
Proof.
  induction l as [|x l IH]; [reflexivity|].
  cbn [List.filter]. destruct (f x); cbn [negb length]; lia.
Qed.

Lemma unvisited_count t :
  Z.of_nat (length (unvisitedSites t)) = totalSites t - visitedCount t.
Proof.
  unfold unvisitedSites, totalSites, visitedCount.
  pose proof (filter_lengths (fun e => Rev2.visited t e.1) (Rev2.retAddr t)). lia.
Qed.

(** C9, as amended. At shutdown with fewer than [2 ^ 32] sites: the timer
    row and then the summary row are appended to [Solving.stats], which is
    closed. When [failed.stats] could be opened it lists exactly the sites
    that are not visited, each with its address and correlation id, there
    are N - k of them, and the summary row carries k, N - k and N. When it
    could not be opened nothing is listed and the summary row carries 0, 0
    and N. *)
Theorem shutdown_report_and_summary (failedOfs : bool) (now1 now2 now3 : Q)
  (t : Rev2.TICooperator) (w : World) :
  totalSites t < 2 ^ 32 ->
  let t' := (Rev2.onEngineShutdown failedOfs now1 now2 now3 t w).1 in
  let w' := (Rev2.onEngineShutdown failedOfs now1 now2 now3 t w).2 in
  let row := StatRow now1 (Rev2.solvedConstraints t) (Rev2.unsolvedConstraints t)
               (Rev2.constraintsCount t) in
  Z.of_nat (length (unvisitedSites t)) = totalSites t - visitedCount t /\
  is_open (Rev2.statOfs t') = false /\
  pending (Rev2.statOfs t') = [] /\
  (failedOfs = true ->
   failedStats w' = Some (unvisitedSites t) /\
   flushed (Rev2.statOfs t')
     = flushed (Rev2.statOfs t) ++ pending (Rev2.statOfs t) ++
       [row; SummaryRow now3 (visitedCount t) (totalSites t - visitedCount t)
               (totalSites t)]) /\
  (failedOfs = false ->
   failedStats w' = failedStats w /\
   flushed (Rev2.statOfs t')
     = flushed (Rev2.statOfs t) ++ pending (Rev2.statOfs t) ++
       [row; SummaryRow now3 0 0 (totalSites t)]).
Proof.
  intros HN t' w' row. split; [apply unvisited_count|].
  pose proof (unvisited_count t) as Hu.
  assert (Hk : 0 <= visitedCount t <= totalSites t).
  { unfold visitedCount, totalSites in *. unfold unvisitedSites in Hu. lia. }
  assert (Htally : Rev2.tally (Rev2.isStepped t) (Rev2.retAddr t) [] 0 0
                   = (unvisitedSites t, visitedCount t, totalSites t - visitedCount t)).
  { pose proof (Rev2_tally_spec (Rev2.isStepped t) (Rev2.retAddr t) [] 0 0) as Ht.
    rewrite wrap32_0 in Ht. rewrite Ht, !Z.add_0_l. cbn [app].
    change (List.filter (fun e => negb (bool_decide (e.1 ∈ Rev2.isStepped t)))
              (Rev2.retAddr t)) with (unvisitedSites t).
    change (Z.of_nat (length (List.filter (fun e => bool_decide (e.1 ∈ Rev2.isStepped t))
                                (Rev2.retAddr t)))) with (visitedCount t).
    rewrite Hu, !wrap32_small by lia. reflexivity. }
  subst t' w' row. unfold Rev2.onEngineShutdown.
  destruct failedOfs.
  - rewrite Htally.
    unfold Rev2.onTimer. cbn [Rev2.m_timeout Rev2.set_statOfs].
    destruct (reached _ _);
      cbn [fst snd Rev2.statOfs Rev2.set_statOfs Rev2.retAddr ofs_close ofs_write
           ofs_flush flushed pending is_open failedStats add_terminated
           add_message set_failedStats];
      (split; [reflexivity|]); (split; [reflexivity|]);
      (split; [intros _ | discriminate]);
      (split; [reflexivity|]);
      rewrite app_nil_l, <- !app_assoc; reflexivity.
  - unfold Rev2.onTimer. cbn [Rev2.m_timeout Rev2.set_statOfs].
    destruct (reached _ _);
      cbn [fst snd Rev2.statOfs Rev2.set_statOfs Rev2.retAddr ofs_close ofs_write
           ofs_flush flushed pending is_open failedStats add_terminated
           add_message set_failedStats];
      (split; [reflexivity|]); (split; [reflexivity|]);
      (split; [discriminate | intros _]);
      (split; [reflexivity|]);
      rewrite app_nil_l, <- !app_assoc; reflexivity.
Qed.

Lemma shutdown_report_and_summary_witness :
  failedStats (Rev2.onEngineShutdown true 20 20 21
                 (Rev2.markStepped 0x1000 (Rev2.initialized twoSites)) emptyWorld).2
    = Some [(0x1008, 2)] /\
  flushed (Rev2.statOfs
             (Rev2.onEngineShutdown true 20 20 21
                (Rev2.markStepped 0x1000 (Rev2.initialized twoSites)) emptyWorld).1)
    = [StatRow 20 0 0 0; SummaryRow 21 1 1 2].
Proof.
  pose proof (shutdown_report_and_summary true 20 20 21
                (Rev2.markStepped 0x1000 (Rev2.initialized twoSites)) emptyWorld
                ltac:(vm_compute; reflexivity)) as (_ & _ & _ & Hopen & _).
  destruct (Hopen eq_refl) as [Hrep Hrows]. split.
  - rewrite Hrep. vm_compute. reflexivity.
  - rewrite Hrows. vm_compute. reflexivity.
Defined.

(** C9, as stated, fails. The claim has the summary row carry k, N - k and
    N at every shutdown. With one site registered and not visited (N = 1,
    k = 0) and [failed.stats] impossible to open, the [if (failedOfs)] skips
    the loop: nothing is listed and the summary row carries 0 unvisited
    sites where the claim has 1. *)
Lemma shutdown_without_report_counts_nothing :
  visitedCount (Rev2.initialized oneSite) = 0 /\
  totalSites (Rev2.initialized oneSite) = 1 /\
  unvisitedSites (Rev2.initialized oneSite) = [(0x1000, 7)] /\
  failedStats (Rev2.onEngineShutdown false 20 20 21
                 (Rev2.initialized oneSite) emptyWorld).2 = None /\
  flushed (Rev2.statOfs (Rev2.onEngineShutdown false 20 20 21
                           (Rev2.initialized oneSite) emptyWorld).1)
    = [StatRow 20 0 0 0; SummaryRow 21 0 0 1].
Proof. repeat split; vm_compute; reflexivity. Qed.

(** ** The tracked state *)

Section Rev2Tracked.
Context `{Engine}.




Lemma Rev2_run_timeout evs : forall c c',
  Rev2.run evs c = Returns c' -> Rev2.m_timeout c'.1 = Rev2.m_timeout c.1.
Proof.
  induction evs as [|ev evs IH]; intros c c' Hr.
  - cbn in Hr. inversion Hr; subst. reflexivity.
  - apply Rev2_run_cons in Hr as (c1 & Hs & Hr).
    rewrite (IH _ _ Hr). apply Rev2_step_retAddr in Hs. tauto.
Qed.








End Rev2Tracked.



(** ** The scenarios of the specification *)

(** Registry [{(0x1000, 7)}], a branch at [pc = 0x1005] on a condition that
    is concretely true, and a solver that answers: the site is visited,
    [solved] is 1, and one test case is requested, labelled with the
    sequence number 0, the address [0x1000] and the id 7, on a clone whose
    constraint set ends with the negated condition. The allow-forking flag
    comes back false. *)
Example scenario_matched_and_solved :
  exists t w,
    Rev2.onStateForkDecide (H := toyEngine) 1%positive condX true
      (Rev2.initialized oneSite) (worldWith (stateAt 0x1005))
    = Returns (t, w, false) /\
    Rev2.visited t 0x1000 = true /\
    counters t = (1, 1, 0) /\
    map (fun r => (tc_id r, tc_site r, constraints (tc_state r))) (testCases w)
    = [(0, Some (0x1000, 7), [createIsZero condX])].
Proof.
  eexists _, _. split; [vm_compute; reflexivity|].
  repeat split; vm_compute; reflexivity.
Qed.

(** The same branch with a solver that finds no answer: the constraint is
    counted as unsolved and nothing is requested. *)
Example scenario_matched_and_unsolved :
  exists t w,
    Rev2.onStateForkDecide (H := failingEngine) 1%positive condX true
      (Rev2.initialized oneSite) (worldWith (stateAt 0x1005))
    = Returns (t, w, false) /\
    Rev2.visited t 0x1000 = true /\
    counters t = (1, 0, 1) /\
    testCases w = [].
Proof.
  eexists _, _. split; [vm_compute; reflexivity|].
  repeat split; vm_compute; reflexivity.
Qed.

(** A branch at [pc = 0x2000], in no window: no statistic changes, no site
    is visited, nothing is requested. *)
Example scenario_unmatched :
  exists t w,
    Rev2.onStateForkDecide (H := toyEngine) 1%positive condX true
      (Rev2.initialized oneSite) (worldWith (stateAt 0x2000))
    = Returns (t, w, false) /\
    Rev2.visited t 0x1000 = false /\
    counters t = (0, 0, 0) /\
    testCases w = [].
Proof.
  eexists _, _. split; [vm_compute; reflexivity|].
  repeat split; vm_compute; reflexivity.
Qed.

(** * Further properties *)

(** ** The two tolerance windows *)

(** X1. In [Rev2] the predicate of the lookup holds of a site exactly when
    [0 <= pc - A < 0x10], for all 64-bit program counters and addresses: a
    program counter below the address never matches, whatever the
    wrap-around of the unsigned difference, and one at [0x10] or more above
    it never does. *)
Theorem Rev2_window_is_forward (pc address cmpId : Z) :
  0 <= pc < 2 ^ 64 -> 0 <= address < 2 ^ 64 ->
  (Rev2.siteMatches pc (address, cmpId) = true <-> 0 <= pc - address < 0x10) /\
  (pc < address -> Rev2.siteMatches pc (address, cmpId) = false) /\
  (0x10 <= pc - address -> Rev2.siteMatches pc (address, cmpId) = false).
Proof.
  intros Hpc Ha.
  pose proof (Rev2_siteMatches_iff pc address cmpId Hpc Ha) as Hiff.
  split; [exact Hiff|].
  split; intros Hout; apply not_true_is_false; intros E; apply Hiff in E; lia.
Qed.

Lemma Rev2_window_is_forward_witness :
  Rev2.siteMatches 0x1000 (0x1000, 7) = true /\
  Rev2.siteMatches 0x100f (0x1000, 7) = true /\
  Rev2.siteMatches 0x1010 (0x1000, 7) = false /\
  Rev2.siteMatches (2 ^ 64 - 1) (0x1000, 7) = false /\
  Rev2.siteMatches 0 (2 ^ 64 - 1, 7) = false.
Proof.
  pose proof (Rev2_window_is_forward 0x1000 0x1000 7 ltac:(lia) ltac:(lia)) as (H1 & _).
  pose proof (Rev2_window_is_forward 0x100f 0x1000 7 ltac:(lia) ltac:(lia)) as (H2 & _).
  pose proof (Rev2_window_is_forward 0x1010 0x1000 7 ltac:(lia) ltac:(lia)) as (_ & _ & H3).
  pose proof (Rev2_window_is_forward (2 ^ 64 - 1) 0x1000 7 ltac:(lia) ltac:(lia))
    as (_ & _ & H4).
  pose proof (Rev2_window_is_forward 0 (2 ^ 64 - 1) 7 ltac:(lia) ltac:(lia))
    as (_ & H5 & _).
  split; [apply H1; lia|]. split; [apply H2; lia|].
  split; [apply H3; lia|]. split; [apply H4; lia | apply H5; lia].
Defined.

(** X2. In [Rev1] the test of the loop holds exactly when program counter
    and address are less than [0x10] apart, on either side (for values
    below [2 ^ 63], where the casts to [long long] keep the value). *)
Theorem Rev1_window_is_symmetric (pc address : Z) :
  0 <= pc < 2 ^ 63 -> 0 <= address < 2 ^ 63 ->
  Rev1.siteMatches pc address = true <-> - 0x10 < pc - address < 0x10.
Proof.
  intros Hpc Ha. rewrite (Rev1_siteMatches_iff pc address Hpc Ha). lia.
Qed.

Lemma Rev1_window_is_symmetric_witness :
  Rev1.siteMatches 0xff1 0x1000 = true /\ Rev1.siteMatches 0x100f 0x1000 = true.
Proof.
  split.
  - apply (Rev1_window_is_symmetric 0xff1 0x1000); lia.
  - apply (Rev1_window_is_symmetric 0x100f 0x1000); lia.
Defined.







(** ** The hook of the address-only revision *)

Section Rev1Callbacks.
Context `{Engine}.

Lemma Rev1_generateTestcase_returns state cond b objs vals w w' :
  Rev1.generateTestcase state cond b objs vals w = Returns w' ->
  exists st r,
    heap w !! state = Some st /\
    heap w' = heap w /\
    testCases w' = testCases w ++ [r] /\
    terminated w' = terminated w /\
    tc_site r = None /\
    constraints (tc_state r) = constraints st ++ [branchedConstraint b cond].
Proof.
  unfold Rev1.generateTestcase, clone.
  destruct (heap w !! state) as [st|] eqn:Hst; [|discriminate].
  cbn [mbind Result_bind heap set_heap set_lastStateID].
  rewrite lookup_insert_eq.
  destruct (addAll objs vals ∅) as [asg|] eqn:Hadd; [|discriminate].
  cbn [mbind Result_bind heap set_heap set_lastStateID].
  destruct (addConstraint _ _); [|discriminate].
  cbn [negb]. intros Hret. inversion Hret; subst; clear Hret.
  eexists st, _. split; [reflexivity|].
  cbn [heap set_heap add_testCase set_lastStateID testCases terminated
       tc_site tc_state].
  split.
  - rewrite !insert_insert_eq. apply delete_insert_id.
    apply not_elem_of_dom. apply is_fresh.
  - repeat split; reflexivity.
Qed.

(** Every way in which the hook of [Rev1] returns. *)
Lemma Rev1_hook_returns state cond allow t w t' w' b :
  Rev1.onStateForkDecide state cond allow t w = Returns (t', w', b) ->
  b = false /\
  exists st v wd,
    heap w !! state = Some st /\ isRunningConcrete st = false /\
    let t0 := Rev1.adoptState state t in
    let c := simplifyExpr st cond in
    ((isConstantExpr c = true /\ t' = t0 /\ w' = w) \/
     (isConstantExpr c = false /\
      evaluate (concolics st) c = ConstantExpr v wd /\
      ((Rev1.is_uncovered (getPc st) (Rev1.retAddr t) = false /\ t' = t0 /\ w' = w) \/
       (Rev1.is_uncovered (getPc st) (Rev1.retAddr t) = true /\
        let t1 := Rev1.incr_constraintsCount t0 in
        let q := {| q_constraints :=
                      constraints st ++ [branchedConstraint (isTrue v wd) c];
                    q_expr := ConstantExpr 0 ExprBool |} in
        ((getInitialValues q (symbolics st) = None /\
          t' = Rev1.incr_unsolvedConstraints t1 /\ w' = w) \/
         (exists vals,
            getInitialValues q (symbolics st) = Some vals /\
            t' = Rev1.incr_solvedConstraints t1 /\
            Rev1.generateTestcase state c (isTrue v wd) (symbolics st) vals w
              = Returns w')))))).
Proof.
  unfold Rev1.onStateForkDecide.
  assert (Hreg : Rev1.retAddr (Rev1.adoptState state t) = Rev1.retAddr t).
  { unfold Rev1.adoptState. destruct (Rev1.m_currentState t); reflexivity. }
  rewrite Hreg.
  destruct (heap w !! state) as [st|] eqn:Hst; [|discriminate].
  destruct (isRunningConcrete st) eqn:Hrc; [discriminate|].
  assert (Hb : (if allow then false else allow) = false) by (destruct allow; reflexivity).
  rewrite Hb. clear Hb.
  destruct (isConstantExpr (simplifyExpr st cond)) eqn:Hc.
  { intros Hret. inversion Hret; subst. split; [reflexivity|].
    exists st, 0, 0%N. split; [reflexivity|]. split; [exact Hrc|]. left. auto. }
  destruct (evaluate _ _) as [v wd| | | |] eqn:Hev; try discriminate.
  destruct (Rev1.is_uncovered _ _) eqn:Hu; cbn [negb].
  2:{ intros Hret. inversion Hret; subst. split; [reflexivity|].
      exists st, v, wd. split; [reflexivity|]. split; [exact Hrc|].
      right. split; [exact Hc|]. split; [exact Hev|]. left. auto. }
  destruct (getInitialValues _ _) as [vals|] eqn:Hsolve.
  - destruct (Rev1.generateTestcase _ _ _ _ _ _) as [w1|] eqn:Hgen;
      cbn [mbind Result_bind]; [|discriminate].
    intros Hret. inversion Hret; subst. split; [reflexivity|].
    exists st, v, wd. split; [reflexivity|]. split; [exact Hrc|].
    right. split; [exact Hc|]. split; [exact Hev|]. right.
    split; [exact Hu|]. right. exists vals. auto.
  - intros Hret. inversion Hret; subst. split; [reflexivity|].
    exists st, v, wd. split; [reflexivity|]. split; [exact Hrc|].
    right. split; [exact Hc|]. split; [exact Hev|]. right.
    split; [exact Hu|]. left. auto.
Qed.

End Rev1Callbacks.

Section HookProperties.
Context `{Engine}.

(** X4. The hook never leaves forking allowed: in both revisions, whenever
    [onStateForkDecide] returns, [allowForking] is false, whatever it was on
    entry and whatever the branch. *)
Theorem forking_is_never_allowed state cond allow w :
  (forall t r,
     Rev2.onStateForkDecide state cond allow t w = Returns r -> r.2 = false) /\
  (forall t r,
     Rev1.onStateForkDecide state cond allow t w = Returns r -> r.2 = false).
Proof.
  split; intros t [[t' w'] b] Hret; cbn [snd].
  - apply Rev2_hook_returns in Hret. tauto.
  - apply Rev1_hook_returns in Hret. tauto.
Qed.

(** X5. One branch observation in [Rev1]: the engine's store and the
    registry are left as they were, and the statistics move in one of three
    ways - nothing changes and nothing is requested; [constraintsCount] and
    [solvedConstraints] are incremented and one test case, labelled without
    a site, is requested; or [constraintsCount] and [unsolvedConstraints]
    are incremented and nothing is requested. In each case counters that
    added up before add up after. *)
Theorem Rev1_hook_statistics state cond allow t w t' w' b :
  Rev1.onStateForkDecide state cond allow t w = Returns (t', w', b) ->
  heap w' = heap w /\
  Rev1.retAddr t' = Rev1.retAddr t /\
  ((Rev1.constraintsCount t' = Rev1.constraintsCount t /\
    Rev1.solvedConstraints t' = Rev1.solvedConstraints t /\
    Rev1.unsolvedConstraints t' = Rev1.unsolvedConstraints t /\
    testCases w' = testCases w) \/
   (Rev1.constraintsCount t' = incr32 (Rev1.constraintsCount t) /\
    Rev1.solvedConstraints t' = incr32 (Rev1.solvedConstraints t) /\
    Rev1.unsolvedConstraints t' = Rev1.unsolvedConstraints t /\
    exists r, testCases w' = testCases w ++ [r] /\ tc_site r = None) \/
   (Rev1.constraintsCount t' = incr32 (Rev1.constraintsCount t) /\
    Rev1.solvedConstraints t' = Rev1.solvedConstraints t /\
    Rev1.unsolvedConstraints t' = incr32 (Rev1.unsolvedConstraints t) /\
    testCases w' = testCases w)) /\
  (wrap32 (Rev1.solvedConstraints t + Rev1.unsolvedConstraints t)
     = Rev1.constraintsCount t ->
   wrap32 (Rev1.solvedConstraints t' + Rev1.unsolvedConstraints t')
     = Rev1.constraintsCount t').
Proof.
  intros Hret.
  apply Rev1_hook_returns in Hret as (_ & st & v & wd & Hst & _ & Hcases).
  cbv zeta in Hcases.
  assert (Hmain :
    heap w' = heap w /\ Rev1.retAddr t' = Rev1.retAddr t /\
    ((Rev1.constraintsCount t' = Rev1.constraintsCount t /\
      Rev1.solvedConstraints t' = Rev1.solvedConstraints t /\
      Rev1.unsolvedConstraints t' = Rev1.unsolvedConstraints t /\
      testCases w' = testCases w) \/
     (Rev1.constraintsCount t' = incr32 (Rev1.constraintsCount t) /\
      Rev1.solvedConstraints t' = incr32 (Rev1.solvedConstraints t) /\
      Rev1.unsolvedConstraints t' = Rev1.unsolvedConstraints t /\
      exists r, testCases w' = testCases w ++ [r] /\ tc_site r = None) \/
     (Rev1.constraintsCount t' = incr32 (Rev1.constraintsCount t) /\
      Rev1.solvedConstraints t' = Rev1.solvedConstraints t /\
      Rev1.unsolvedConstraints t' = incr32 (Rev1.unsolvedConstraints t) /\
      testCases w' = testCases w))).
  { destruct Hcases as [(_ & -> & ->) | (_ & _ & [(_ & -> & ->) | (_ & Hq)])].
    - split; [reflexivity|]. split; [fields1; reflexivity|]. left. fields1; auto.
    - split; [reflexivity|]. split; [fields1; reflexivity|]. left. fields1; auto.
    - destruct Hq as [(_ & -> & ->) | (vals & _ & -> & Hgen)].
      + split; [reflexivity|]. split; [fields1; reflexivity|].
        right. right. fields1; auto.
      + apply Rev1_generateTestcase_returns in Hgen
          as (st1 & r & _ & Hheap & Htc & _ & Hsite & _).
        split; [exact Hheap|]. split; [fields1; reflexivity|].
        right. left. fields1; eauto 10. }
  destruct Hmain as (Hheap & Hreg & Hmove).
  split; [exact Hheap|]. split; [exact Hreg|]. split; [exact Hmove|].
  intros Hsum.
  destruct Hmove as [(-> & -> & -> & _) | [(-> & -> & -> & _) | (-> & -> & -> & _)]].
  - exact Hsum.
  - rewrite wrap32_incr_l, Hsum. reflexivity.
  - rewrite wrap32_incr_r, Hsum. reflexivity.
Qed.



End HookProperties.

Lemma forking_is_never_allowed_witness :
  exists r,
    Rev2.onStateForkDecide (H := toyEngine) 1%positive condX true
      (Rev2.initialized oneSite) (worldWith (stateAt 0x1005)) = Returns r /\
    r.2 = false.
Proof.
  eexists. split; [vm_compute; reflexivity|].
  refine (proj1 (forking_is_never_allowed (H := toyEngine) 1%positive condX true
                   (worldWith (stateAt 0x1005))) (Rev2.initialized oneSite) _ _).
  vm_compute. reflexivity.
Defined.

Lemma Rev1_hook_statistics_witness :
  exists t' w',
    Rev1.onStateForkDecide (H := toyEngine) 1%positive condX true
      (Rev1.initialized [0x1000]) (worldWith (stateAt 0x1005))
    = Returns (t', w', false) /\
    heap w' = heap (worldWith (stateAt 0x1005)) /\
    wrap32 (Rev1.solvedConstraints t' + Rev1.unsolvedConstraints t')
      = Rev1.constraintsCount t'.
Proof.
  eexists _, _. split; [vm_compute; reflexivity|].
  refine (let P := Rev1_hook_statistics (H := toyEngine) 1%positive condX true
                     (Rev1.initialized [0x1000]) (worldWith (stateAt 0x1005))
                     _ _ false _ in
          conj (proj1 P) (proj2 (proj2 (proj2 P)) eq_refl)).
  vm_compute. reflexivity.
Defined.


(** ** Runs of the later revision *)

Section RunProperties.
Context `{Engine}.

Lemma Rev2_step_count ev t w t' w' :
  Rev2.step ev (t, w) = Returns (t', w') ->
  Rev2.constraintsCount t'
  = if solverAsked (Rev2.retAddr t) ev then incr32 (Rev2.constraintsCount t)
    else Rev2.constraintsCount t.
Proof.
  destruct ev as [state st cond allow | now1 now2 | size data now1 now2];
    cbn [Rev2.step fst snd solverAsked].
  - destruct (Rev2.onStateForkDecide _ _ _ _ _) as [[[t1 w1] b]|] eqn:Hh;
      cbn [mbind Result_bind]; [|discriminate].
    intros Hr. inversion Hr; subst. clear Hr.
    apply Rev2_hook_returns in Hh as (_ & st0 & Hst & _ & Hcases).
    cbn [heap set_heap] in Hst. rewrite lookup_insert_eq in Hst.
    inversion Hst; subst st0. clear Hst. cbv zeta in Hcases.
    destruct Hcases as [(Hc & -> & _) | [(Hc & Hf & -> & _) | Hm]].
    + rewrite Hc. cbn [negb andb]. fields; reflexivity.
    + rewrite Hc, Hf. cbn [negb andb]. fields; reflexivity.
    + destruct Hm as (a & id & v & wd & Hc & Hf & _ &
                      [(_ & -> & _) | (vals & _ & -> & _)]);
        rewrite Hc, Hf; cbn [negb andb]; fields; reflexivity.
  - intros Hr. inversion Hr as [Hr'].
    pose proof (Rev2_onTimer_counters now1 now2 t w) as Hc. rewrite Hr' in Hc.
    unfold counters in Hc. cbn [fst] in Hc. congruence.
  - intros Hr. inversion Hr as [Hr'].
    destruct (Rev2_opcode_cases size data now1 now2 t w) as [E | [m E]];
      rewrite E in Hr'.
    + pose proof (Rev2_onTimer_counters now1 now2 t w) as Hc. rewrite Hr' in Hc.
      unfold counters in Hc. cbn [fst] in Hc. congruence.
    + inversion Hr'; subst. reflexivity.
Qed.

Lemma Rev2_run_count evs : forall t w t' w' k,
  Rev2.constraintsCount t = wrap32 k ->
  Rev2.run evs (t, w) = Returns (t', w') ->
  Rev2.constraintsCount t'
  = wrap32 (k + Z.of_nat (length (List.filter (solverAsked (Rev2.retAddr t)) evs))).
Proof.
  induction evs as [|ev evs IH]; intros t w t' w' k Hk Hr.
  - cbn in Hr. inversion Hr; subst. cbn [List.filter length].
    rewrite Z.add_0_r. exact Hk.
  - apply Rev2_run_cons in Hr as ([t1 w1] & Hs & Hr).
    pose proof (Rev2_step_count _ _ _ _ _ Hs) as Hc.
    apply Rev2_step_retAddr in Hs as [Hreg _]. cbn [fst] in Hreg.
    cbn [List.filter]. destruct (solverAsked (Rev2.retAddr t) ev).
    + rewrite Hk, incr32_wrap32 in Hc.
      rewrite (IH _ _ _ _ (k + 1) Hc Hr), Hreg. cbn [length]. f_equal. lia.
    + rewrite Hk in Hc. rewrite (IH _ _ _ _ k Hc Hr), Hreg. reflexivity.
Qed.

Lemma wrap32_range z : 0 <= wrap32 z < 2 ^ 32.
Proof. unfold wrap32. apply Z.mod_pos_bound. lia. Qed.

(** X7. After a run, [constraintsCount] is the number of branch
    observations of the run at which the solver was asked - those with a
    non-constant simplified condition at a matched program counter -
    reduced to [unsigned int]; observations with a constant condition or
    outside every window, timer ticks and guest requests do not count. The
    three counters stay within the range of [unsigned int]. *)
Theorem constraintsCount_counts_solver_queries evs reg w t w' :
  Rev2.run evs (Rev2.initialized reg, w) = Returns (t, w') ->
  Rev2.constraintsCount t
    = wrap32 (Z.of_nat (length (List.filter (solverAsked reg) evs))) /\
  0 <= Rev2.constraintsCount t < 2 ^ 32 /\
  0 <= Rev2.solvedConstraints t < 2 ^ 32 /\
  0 <= Rev2.unsolvedConstraints t < 2 ^ 32.
Proof.
  intros Hr.
  pose proof (Rev2_run_count evs (Rev2.initialized reg) w t w' 0 eq_refl Hr) as Hc.
  cbn [Rev2.retAddr Rev2.initialized] in Hc. rewrite Z.add_0_l in Hc.
  split; [exact Hc|]. split; [rewrite Hc; apply wrap32_range|].
  apply (Rev2_run_tallied w _ 0 _ _ (Rev2_initialized_tallied reg w)) in Hr.
  destruct Hr as (s & u & _ & _ & _ & Es & Eu & _).
  cbn [fst] in *. rewrite Es, Eu. split; apply wrap32_range.
Qed.

(** X8. Only registered sites are ever stepped, and only on evidence: an
    address in [isStepped] after a run is the address of a registry entry,
    and some branch observation of the run had its program counter in the
    forward window of that entry. *)
Theorem stepped_addresses_are_registered evs reg w t w' address :
  Rev2.run evs (Rev2.initialized reg, w) = Returns (t, w') ->
  address ∈ Rev2.isStepped t ->
  exists cmpId state st cond allow,
    In (address, cmpId) reg /\
    In (Rev2.BranchObserved state st cond allow) evs /\
    Rev2.siteMatches (getPc st) (address, cmpId) = true.
Proof.
  intros Hr Hin.
  apply (Rev2_run_isStepped evs _ _ _ _ address Hr) in Hin.
  cbn [Rev2.isStepped Rev2.retAddr Rev2.initialized] in Hin.
  destruct Hin as [Hin | Hex]; [apply elem_of_empty in Hin; contradiction|].
  apply Exists_exists in Hex as (ev & Hev & Hm).
  destruct ev as [state st cond allow | |]; cbn [marks] in Hm; try contradiction.
  destruct Hm as (_ & cmpId & Hfind). apply find_some in Hfind as [Hreg Hsm].
  exists cmpId, state, st, cond, allow.
  split; [exact Hreg|]. split; [apply list_elem_of_In; exact Hev | exact Hsm].
Qed.

Lemma Rev2_step_log ev t w t' w' :
  Rev2.step ev (t, w) = Returns (t', w') ->
  pending (Rev2.statOfs t) = [] ->
  pending (Rev2.statOfs t') = [] /\
  is_open (Rev2.statOfs t') = is_open (Rev2.statOfs t) /\
  exists rows,
    flushed (Rev2.statOfs t') = flushed (Rev2.statOfs t) ++ rows /\
    length rows = (if printsStatistics ev then 1 else 0)%nat /\
    Forall (fun l => exists now,
              l = StatRow now (Rev2.solvedConstraints t)
                    (Rev2.unsolvedConstraints t) (Rev2.constraintsCount t)) rows.
Proof.
  intros Hs Hp.
  assert (Htimer : forall now1 now2 w0,
    pending (Rev2.statOfs (Rev2.onTimer now1 now2 t w0).1) = [] /\
    is_open (Rev2.statOfs (Rev2.onTimer now1 now2 t w0).1) = is_open (Rev2.statOfs t) /\
    exists rows,
      flushed (Rev2.statOfs (Rev2.onTimer now1 now2 t w0).1)
        = flushed (Rev2.statOfs t) ++ rows /\
      length rows = 1%nat /\
      Forall (fun l => exists now,
                l = StatRow now (Rev2.solvedConstraints t)
                      (Rev2.unsolvedConstraints t) (Rev2.constraintsCount t)) rows).
  { intros now1 now2 w0. unfold Rev2.onTimer.
    destruct (reached _ _);
      cbn [fst Rev2.statOfs Rev2.set_statOfs ofs_flush ofs_write pending flushed
           is_open];
      rewrite Hp; (split; [reflexivity|]); (split; [reflexivity|]);
      eexists; (split; [reflexivity|]); (split; [reflexivity|]);
      constructor; eauto. }
  destruct ev as [state st cond allow | now1 now2 | size data now1 now2];
    cbn [Rev2.step fst snd printsStatistics] in *.
  - destruct (Rev2.onStateForkDecide _ _ _ _ _) as [[[t1 w1] b]|] eqn:Hh;
      cbn [mbind Result_bind] in Hs; [|discriminate].
    inversion Hs; subst. clear Hs.
    apply Rev2_hook_counters in Hh as [Hofs _]. rewrite Hofs.
    split; [exact Hp|]. split; [reflexivity|].
    exists []. rewrite app_nil_r. repeat split. constructor.
  - inversion Hs as [Hs']. specialize (Htimer now1 now2 w). rewrite Hs' in Htimer.
    exact Htimer.
  - inversion Hs as [Hs']. unfold Rev2.handleOpcodeInvocation in Hs'.
    destruct (size =? sizeof_command); cbn [negb andb] in *.
    + destruct data as [command|].
      * destruct (command =? TICOOP_PRINT_STATISTICS).
        -- specialize (Htimer now1 now2 w). rewrite Hs' in Htimer. exact Htimer.
        -- inversion Hs'; subst. split; [exact Hp|]. split; [reflexivity|].
           exists []. rewrite app_nil_r. repeat split. constructor.
      * inversion Hs'; subst. split; [exact Hp|]. split; [reflexivity|].
        exists []. rewrite app_nil_r. repeat split. constructor.
    + inversion Hs'; subst. split; [exact Hp|]. split; [reflexivity|].
      exists []. rewrite app_nil_r. repeat split. constructor.
Qed.

(** X9. [Solving.stats] only grows, by one flushed row per timer tick and per
    well-formed request for the statistics, and by nothing else: whenever
    nothing is pending before a run, nothing is pending after it, the rows
    flushed before are still the first rows, and the rows added are
    statistics rows, as many as there were such events. *)
Theorem statistics_log_one_row_per_request evs : forall t w t' w',
  pending (Rev2.statOfs t) = [] ->
  Rev2.run evs (t, w) = Returns (t', w') ->
  pending (Rev2.statOfs t') = [] /\
  is_open (Rev2.statOfs t') = is_open (Rev2.statOfs t) /\
  exists rows,
    flushed (Rev2.statOfs t') = flushed (Rev2.statOfs t) ++ rows /\
    length rows = length (List.filter printsStatistics evs) /\
    Forall isStatRow rows.
Proof.
  induction evs as [|ev evs IH]; intros t w t' w' Hp Hr.
  - cbn in Hr. inversion Hr; subst. split; [exact Hp|]. split; [reflexivity|].
    exists []. rewrite app_nil_r. repeat split. constructor.
  - apply Rev2_run_cons in Hr as ([t1 w1] & Hs & Hr).
    apply Rev2_step_log in Hs as (Hp1 & Ho1 & rows1 & Hf1 & Hl1 & Hr1); [|exact Hp].
    destruct (IH _ _ _ _ Hp1 Hr) as (Hp2 & Ho2 & rows2 & Hf2 & Hl2 & Hr2).
    split; [exact Hp2|]. split; [congruence|].
    exists (rows1 ++ rows2). split; [rewrite Hf2, Hf1, app_assoc; reflexivity|].
    split.
    + rewrite length_app, Hl1, Hl2. cbn [List.filter].
      destruct (printsStatistics ev); reflexivity.
    + apply Forall_app. split; [|exact Hr2].
      eapply Forall_impl; [exact Hr1|]. intros l [now ->]. exact I.
Qed.

End RunProperties.

Lemma constraintsCount_counts_solver_queries_witness :
  Rev2.run (H := toyEngine) shortRun (Rev2.initialized oneSite, emptyWorld)
    = Returns shortRunEnd /\
  length (List.filter (solverAsked (H := toyEngine) oneSite) shortRun) = 1%nat /\
  Rev2.constraintsCount shortRunEnd.1 = 1.
Proof.
  assert (Hrun : Rev2.run (H := toyEngine) shortRun
                   (Rev2.initialized oneSite, emptyWorld)
                 = Returns (shortRunEnd.1, shortRunEnd.2))
    by (vm_compute; reflexivity).
  split; [exact Hrun|]. split; [reflexivity|].
  rewrite (proj1 (constraintsCount_counts_solver_queries (H := toyEngine)
                    shortRun oneSite emptyWorld _ _ Hrun)).
  reflexivity.
Defined.

Lemma stepped_addresses_are_registered_witness :
  exists cmpId state st cond allow,
    In (0x1000, cmpId) oneSite /\
    In (Rev2.BranchObserved state st cond allow) shortRun /\
    Rev2.siteMatches (getPc st) (0x1000, cmpId) = true.
Proof.
  apply (stepped_addresses_are_registered (H := toyEngine) shortRun oneSite
           emptyWorld shortRunEnd.1 shortRunEnd.2 0x1000).
  - vm_compute. reflexivity.
  - apply Rev2_visited_iff. vm_compute. reflexivity.
Defined.

Lemma statistics_log_one_row_per_request_witness :
  length (List.filter printsStatistics shortRun) = 2%nat /\
  exists rows,
    flushed (Rev2.statOfs shortRunEnd.1) = [] ++ rows /\
    length rows = 2%nat.
Proof.
  split; [reflexivity|].
  destruct (statistics_log_one_row_per_request (H := toyEngine) shortRun
              (Rev2.initialized oneSite) emptyWorld shortRunEnd.1 shortRunEnd.2
              eq_refl ltac:(vm_compute; reflexivity))
    as (_ & _ & rows & Hf & Hl & _).
  exists rows. split; [exact Hf | exact Hl].
Defined.

Section RunRequests.
Context `{Engine}.




Lemma Rev2_onTimer_untouched now1 now2 t w t' w' :
  Rev2.onTimer now1 now2 t w = (t', w') ->
  counters t' = counters t /\
  Rev2.retAddr t' = Rev2.retAddr t /\
  Rev2.isStepped t' = Rev2.isStepped t /\
  Rev2.m_currentState t' = Rev2.m_currentState t /\
  Rev2.m_timeout t' = Rev2.m_timeout t /\
  heap w' = heap w /\
  testCases w' = testCases w.
Proof.
  unfold Rev2.onTimer, counters.
  destruct (reached _ _); intros Hr; inversion Hr; subst; cbn; repeat split.
Qed.

(** X11. A timer tick or a guest request that returns has touched nothing
    but the log and the calls on the engine: the three counters, the
    registry, the stepped set, the tracked state, the budget and the
    requested test cases are as before, and the callback itself has written
    none of the engine's states (a termination request is recorded as a
    call; what the engine does on it is the engine's). A guest request that
    has the wrong size, cannot be read or carries an unknown command
    returns, with the object as it was and one message more in the world:
    the log and the termination requests are left alone as well. *)
Theorem timer_and_guest_requests_frame ev t w :
  isBranchObserved ev = false ->
  (forall t' w',
     Rev2.step ev (t, w) = Returns (t', w') ->
     counters t' = counters t /\
     Rev2.retAddr t' = Rev2.retAddr t /\
     Rev2.isStepped t' = Rev2.isStepped t /\
     Rev2.m_currentState t' = Rev2.m_currentState t /\
     Rev2.m_timeout t' = Rev2.m_timeout t /\
     heap w' = heap w /\
     testCases w' = testCases w) /\
  (printsStatistics ev = false ->
   exists m, Rev2.step ev (t, w) = Returns (t, add_message m w)).
Proof.
  intros Hnb.
  destruct ev as [state st cond allow | now1 now2 | size data now1 now2];
    [discriminate Hnb | |]; cbn [Rev2.step fst snd printsStatistics].
  - split; [|discriminate].
    intros t' w' Hr. inversion Hr as [Hr']. exact (Rev2_onTimer_untouched _ _ _ _ _ _ Hr').
  - unfold Rev2.handleOpcodeInvocation.
    destruct (size =? sizeof_command); cbn [negb andb].
    + destruct data as [command|].
      * destruct (command =? TICOOP_PRINT_STATISTICS).
        -- split; [|discriminate].
           intros t' w' Hr. inversion Hr as [Hr'].
           exact (Rev2_onTimer_untouched _ _ _ _ _ _ Hr').
        -- split; [|eauto].
           intros t' w' Hr. inversion Hr; subst. cbn. repeat split.
      * split; [|eauto].
        intros t' w' Hr. inversion Hr; subst. cbn. repeat split.
    + split; [|eauto].
      intros t' w' Hr. inversion Hr; subst. cbn. repeat split.
Qed.

Lemma Rev2_step_requests_labelled ev t w t' w' :
  Rev2.step ev (t, w) = Returns (t', w') ->
  exists rs,
    testCases w' = testCases w ++ rs /\
    Forall (requestForVisitedSite (Rev2.retAddr t) t') rs.
Proof.
  destruct ev as [state st cond allow | now1 now2 | size data now1 now2];
    cbn [Rev2.step fst snd].
  - destruct (Rev2.onStateForkDecide _ _ _ _ _) as [[[t1 w1] b]|] eqn:Hh;
      cbn [mbind Result_bind]; [|discriminate].
    intros Hr. inversion Hr; subst. clear Hr.
    apply Rev2_hook_returns in Hh as (_ & st0 & _ & _ & Hcases).
    cbv zeta in Hcases.
    destruct Hcases as [(_ & _ & ->) | [(_ & _ & _ & ->) | Hm]];
      [exists []; rewrite app_nil_r; split; [reflexivity | constructor] ..|].
    destruct Hm as (a & id & v & wd & _ & Hf & _ &
                    [(_ & _ & ->) | (vals & _ & -> & Hgen)]).
    + exists []. rewrite app_nil_r. split; [reflexivity | constructor].
    + apply Rev2_generateTestcase_returns in Hgen
        as (st1 & r & _ & _ & Htc & _ & _ & _ & Hsite & _).
      exists [r]. split; [exact Htc|]. constructor; [|constructor].
      exists (a, id). apply find_some in Hf as [Hin _].
      split; [exact Hin|]. split; [exact Hsite|]. cbn [fst].
      change (a ∈ Rev2.isStepped (Rev2.markStepped a (Rev2.adoptState state t))).
      apply Rev2_elem_markStepped. right. reflexivity.
  - intros Hr. inversion Hr as [Hr'].
    pose proof (Rev2_onTimer_testCases now1 now2 t w) as Htc. rewrite Hr' in Htc.
    exists []. rewrite app_nil_r. split; [exact Htc | constructor].
  - intros Hr. inversion Hr as [Hr'].
    destruct (Rev2_opcode_cases size data now1 now2 t w) as [E | [m E]];
      rewrite E in Hr'.
    + pose proof (Rev2_onTimer_testCases now1 now2 t w) as Htc. rewrite Hr' in Htc.
      exists []. rewrite app_nil_r. split; [exact Htc | constructor].
    + inversion Hr'; subst. exists []. rewrite app_nil_r.
      split; [reflexivity | constructor].
Qed.

(** X12. Every test case requested over a run is requested for a site of
    the registry: the address and the correlation id that [generateTestcase]
    hands to the format of the label are those of an entry, and that site is
    visited at the end of the run. No test case is ever requested for a site
    that the shutdown report lists as unvisited. (This is about the
    arguments of the format; the label itself is what [snprintf] leaves of
    the formatted text in 31 characters.) *)
Theorem requests_are_for_visited_sites evs : forall t w t' w',
  Rev2.run evs (t, w) = Returns (t', w') ->
  exists rs,
    testCases w' = testCases w ++ rs /\
    Forall (fun r => exists e,
              In e (Rev2.retAddr t) /\ tc_site r = Some e /\
              Rev2.visited t' e.1 = true) rs.
Proof.
  induction evs as [|ev evs IH]; intros t w t' w' Hr.
  - cbn in Hr. inversion Hr; subst. exists []. rewrite app_nil_r.
    split; [reflexivity | constructor].
  - apply Rev2_run_cons in Hr as ([t1 w1] & Hs & Hr).
    pose proof (Rev2_step_requests_labelled _ _ _ _ _ Hs) as (rs1 & Htc1 & Hl1).
    apply Rev2_step_retAddr in Hs as [Hreg _]. cbn [fst] in Hreg.
    destruct (IH _ _ _ _ Hr) as (rs2 & Htc2 & Hl2). rewrite Hreg in Hl2.
    exists (rs1 ++ rs2). split; [rewrite Htc2, Htc1, app_assoc; reflexivity|].
    apply Forall_app. split; [|exact Hl2].
    eapply Forall_impl; [exact Hl1|].
    intros r (e & Hin & Hsite & Hstep). exists e.
    split; [exact Hin|]. split; [exact Hsite|].
    apply Rev2_visited_iff.
    apply (Rev2_run_isStepped evs _ _ _ _ e.1 Hr). left. exact Hstep.
Qed.

(** X13. No callback writes the registry or the budget: after any run they
    are what [initialize] left; and the shutdown changes neither them nor
    the counters, the stepped set or the tracked state. *)
Theorem registry_and_budget_are_never_written evs c c' :
  Rev2.run evs c = Returns c' ->
  Rev2.retAddr c'.1 = Rev2.retAddr c.1 /\
  Rev2.m_timeout c'.1 = Rev2.m_timeout c.1 /\
  forall failedOfs now1 now2 now3,
    let t'' := (Rev2.onEngineShutdown failedOfs now1 now2 now3 c'.1 c'.2).1 in
    Rev2.retAddr t'' = Rev2.retAddr c.1 /\
    Rev2.m_timeout t'' = Rev2.m_timeout c.1 /\
    counters t'' = counters c'.1 /\
    Rev2.isStepped t'' = Rev2.isStepped c'.1 /\
    Rev2.m_currentState t'' = Rev2.m_currentState c'.1.
Proof.
  intros Hr.
  pose proof (Rev2_run_retAddr _ _ _ Hr) as Hreg.
  pose proof (Rev2_run_timeout _ _ _ Hr) as Hb.
  split; [exact Hreg|]. split; [exact Hb|].
  intros failedOfs now1 now2 now3 t''. subst t''.
  rewrite <- Hreg, <- Hb. unfold Rev2.onEngineShutdown.
  destruct (if failedOfs then _ else _) as [[lines sb] fb].
  pose proof (Rev2_onTimer_frame now1 now2 c'.1
                (if failedOfs then set_failedStats (Some lines) c'.2 else c'.2))
    as (F1 & F2 & F3 & F4).
  pose proof (Rev2_onTimer_counters now1 now2 c'.1
                (if failedOfs then set_failedStats (Some lines) c'.2 else c'.2))
    as F5.
  destruct (Rev2.onTimer _ _ _ _) as [t1 w1]. cbn [fst] in *.
  unfold counters in *. cbn. repeat split; assumption.
Qed.

End RunRequests.


Lemma timer_and_guest_requests_frame_witness :
  Rev2.step (H := toyEngine) (Rev2.OpcodeInvocation 16 (Some 5) 1 1)
    (Rev2.initialized oneSite, emptyWorld)
  = Returns (Rev2.initialized oneSite, add_message (MsgUnknownCommand 5) emptyWorld).
Proof.
  destruct (proj2 (timer_and_guest_requests_frame (H := toyEngine)
                     (Rev2.OpcodeInvocation 16 (Some 5) 1 1)
                     (Rev2.initialized oneSite) emptyWorld eq_refl) eq_refl)
    as [m Hs].
  rewrite Hs. cbn in Hs. inversion Hs. reflexivity.
Defined.

Lemma requests_are_for_visited_sites_witness :
  exists rs,
    testCases shortRunEnd.2 = testCases emptyWorld ++ rs /\
    Forall (fun r => exists e,
              In e oneSite /\ tc_site r = Some e /\
              Rev2.visited shortRunEnd.1 e.1 = true) rs.
Proof.
  apply (requests_are_for_visited_sites (H := toyEngine) shortRun
           (Rev2.initialized oneSite) emptyWorld shortRunEnd.1 shortRunEnd.2).
  vm_compute. reflexivity.
Defined.

Lemma registry_and_budget_are_never_written_witness :
  Rev2.retAddr shortRunEnd.1 = oneSite /\
  Rev2.m_timeout shortRunEnd.1 = 3600000%Q.
Proof.
  destruct (registry_and_budget_are_never_written (H := toyEngine) shortRun
              (Rev2.initialized oneSite, emptyWorld) shortRunEnd
              ltac:(vm_compute; reflexivity)) as (Hreg & Hb & _).
  split; [exact Hreg | exact Hb].
Defined.

(** ** The clone handed to the generator *)

Lemma addAll_lookup_notin objs : forall vals m a o,
  o ∉ objs -> addAll objs vals m = Returns a -> a !! o = m !! o.
Proof.
  induction objs as [|o' objs IH]; intros vals m a o Hnotin Ha.
  - cbn in Ha. inversion Ha. reflexivity.
  - destruct vals as [|v vals]; [discriminate|]. cbn [addAll] in Ha.
    apply not_elem_of_cons in Hnotin as [Hne Hnotin].
    rewrite (IH _ _ _ _ Hnotin Ha). apply lookup_insert_ne. congruence.
Qed.

Lemma addAll_lookup objs : forall vals m a i o,
  NoDup objs -> addAll objs vals m = Returns a -> objs !! i = Some o ->
  exists v, vals !! i = Some v /\ a !! o = Some v.
Proof.
  induction objs as [|o' objs IH]; intros vals m a i o Hnd Ha Hi; [discriminate|].
  destruct vals as [|v vals]; [discriminate|]. cbn [addAll] in Ha.
  apply NoDup_cons in Hnd as [Hnotin Hnd].
  destruct i as [|i]; cbn in Hi.
  - inversion Hi; subst o'. exists v. split; [reflexivity|].
    rewrite (addAll_lookup_notin _ _ _ _ _ Hnotin Ha). apply lookup_insert_eq.
  - apply (IH vals _ a i o Hnd Ha Hi).
Qed.

Lemma addAll_dom objs : forall vals m a,
  addAll objs vals m = Returns a -> dom a = dom m ∪ list_to_set objs.
Proof.
  induction objs as [|o objs IH]; intros vals m a Ha.
  - cbn in Ha. inversion Ha. cbn [list_to_set].
    apply set_eq. intros x. rewrite elem_of_union, elem_of_empty. tauto.
  - destruct vals as [|v vals]; [discriminate|]. cbn [addAll] in Ha.
    rewrite (IH _ _ _ Ha), dom_insert_L. cbn [list_to_set].
    apply set_eq. intros x. rewrite !elem_of_union. tauto.
Qed.

Section CloneProperties.
Context `{Engine}.

(** X14. The state handed to the test-case generator: it has the program
    counter and the symbolic objects of the observing state; its concrete
    assignment binds exactly the symbolic objects - nothing of the observing
    state's assignment survives the [clear] - and, the objects being
    distinct, each to the value the solver gave for it; and the sequence
    number of the label is its identifier minus one. *)
Theorem generateTestcase_hands_over_the_solution state cond b objs vals a id w w' :
  Rev2.generateTestcase state cond b objs vals a id w = Returns w' ->
  exists st r,
    heap w !! state = Some st /\
    testCases w' = testCases w ++ [r] /\
    getPc (tc_state r) = getPc st /\
    symbolics (tc_state r) = symbolics st /\
    dom (concolics (tc_state r)) = list_to_set objs /\
    (NoDup objs ->
     forall i o, objs !! i = Some o ->
       exists v, vals !! i = Some v /\ concolics (tc_state r) !! o = Some v) /\
    tc_id r = wrap32 (getID (tc_state r) - 1).
Proof.
  unfold Rev2.generateTestcase, clone.
  destruct (heap w !! state) as [st|] eqn:Hst; [|discriminate].
  cbn [mbind Result_bind heap set_heap set_lastStateID].
  rewrite lookup_insert_eq.
  destruct (addAll objs vals ∅) as [asg|] eqn:Hadd; [|discriminate].
  cbn [mbind Result_bind heap set_heap set_lastStateID].
  destruct (addConstraint _ _); [|discriminate].
  cbn [negb]. intros Hret. inversion Hret; subst; clear Hret.
  eexists st, _. split; [reflexivity|].
  cbn [heap set_heap add_testCase set_lastStateID testCases].
  split; [reflexivity|].
  cbn [tc_state tc_id getPc symbolics concolics getID set_constraints
       set_concolics set_ID].
  split; [reflexivity|]. split; [reflexivity|].
  split.
  { rewrite (addAll_dom _ _ _ _ Hadd), dom_empty_L.
    apply set_eq. intros x. rewrite elem_of_union, elem_of_empty. tauto. }
  split; [|reflexivity].
  intros Hnd i o Hi. exact (addAll_lookup _ _ _ _ _ _ Hnd Hadd Hi).
Qed.

End CloneProperties.

Lemma generateTestcase_hands_over_the_solution_witness :
  exists w' st r,
    Rev2.generateTestcase (H := toyEngine) 1%positive condX true
      ["x"%string] [[Byte.x42]] 0x1000 7 (worldWith (stateAt 0x1005)) = Returns w' /\
    heap (worldWith (stateAt 0x1005)) !! 1%positive = Some st /\
    testCases w' = [r] /\
    concolics (tc_state r) !! "x"%string = Some [Byte.x42].
Proof.
  destruct (Rev2.generateTestcase (H := toyEngine) 1%positive condX true
              ["x"%string] [[Byte.x42]] 0x1000 7 (worldWith (stateAt 0x1005)))
    as [w'|] eqn:Hgen; [|vm_compute in Hgen; discriminate Hgen].
  destruct (generateTestcase_hands_over_the_solution (H := toyEngine) _ _ _ _ _ _ _ _ _
              Hgen) as (st & r & Hst & Htc & _ & _ & _ & Hval & _).
  exists w', st, r. split; [reflexivity|]. split; [exact Hst|].
  split; [exact Htc|].
  assert (Hnd : NoDup ["x"%string]).
  { apply NoDup_cons. split; [apply not_elem_of_nil | apply NoDup_nil_2]. }
  destruct (Hval Hnd 0%nat "x"%string eq_refl) as (v & Hv & Hc).
  inversion Hv; subst v. exact Hc.
Defined.

(** ** Reading [ret_addr] *)

Lemma good_eofbit s : good s = true -> eofbit s = false.
Proof.
  unfold good. intros Hg. apply andb_true_iff in Hg as [_ He].
  apply negb_true_iff in He. exact He.
Qed.

Lemma extract_only_space base max s old :
  good s = true -> skipws (rdbuf s) = [] ->
  extract base max s old = ({| failbit := true; eofbit := true; rdbuf := [] |}, old).
Proof. intros Hg Hs. unfold extract. rewrite Hg, Hs. reflexivity. Qed.

Lemma good_ifstream_open content : good (ifstream_open (Some content)) = true.
Proof. reflexivity. Qed.

(** X15. [Rev1], a turn of the loop entered with nothing but white space
    left to read (or nothing at all): no number is read, yet the value
    [instRetAddr] holds is pushed once more and the loop ends. So a file that
    ends in a newline has its last address twice in the registry, and an
    empty or blank file gives a registry of one entry, the uninitialised
    [instRetAddr]. *)
Theorem Rev1_blank_remainder_pushes_again (fuel : nat) (s : ifstream)
  (instRetAddr : Z) (reg : list Z) :
  good s = true -> skipws (rdbuf s) = [] ->
  Rev1.readLoop (S (S fuel)) (s, instRetAddr, reg) = Some (reg ++ [instRetAddr]) /\
  forall content w,
    skipws (list_ascii_of_string content) = [] ->
    Rev1.readSelectedRetAddr (S (S fuel)) (Some content) instRetAddr [] w
    = Some ([instRetAddr], w).
Proof.
  intros Hg Hs.
  assert (Hloop : forall s0 reg0,
            good s0 = true -> skipws (rdbuf s0) = [] ->
            Rev1.readLoop (S (S fuel)) (s0, instRetAddr, reg0)
            = Some (reg0 ++ [instRetAddr])).
  { intros s0 reg0 Hg0 Hs0. cbn [Rev1.readLoop].
    rewrite (good_eofbit _ Hg0). unfold Rev1.readBody.
    rewrite (extract_only_space _ _ _ _ Hg0 Hs0). reflexivity. }
  split; [apply Hloop; assumption|].
  intros content w Hblank. unfold Rev1.readSelectedRetAddr.
  rewrite (Hloop (ifstream_open (Some content)) [] (good_ifstream_open content) Hblank).
  reflexivity.
Qed.

Lemma Rev1_blank_remainder_pushes_again_witness :
  Rev1.readSelectedRetAddr 2 (Some ""%string) 0xdead [] emptyWorld
  = Some ([0xdead], emptyWorld).
Proof.
  apply (proj2 (Rev1_blank_remainder_pushes_again 0
                  (ifstream_open (Some ""%string)) 0xdead [] eq_refl eq_refl)).
  reflexivity.
Defined.

(** X16. [Rev2], the same turn: nothing is read and the pair the two
    variables hold is emplaced before the loop ends. An empty or blank file
    therefore loads one site, made of the uninitialised [instRetAddr] and
    [cmpId], and no warning is printed. *)
Theorem Rev2_blank_remainder_emplaces_again (fuel : nat) (s : ifstream)
  (instRetAddr cmpId : Z) (reg : list (Z * Z)) :
  good s = true -> skipws (rdbuf s) = [] ->
  Rev2.readLoop (S (S fuel)) (s, instRetAddr, cmpId, reg)
    = Some (Rev2.emplace (instRetAddr, cmpId) reg) /\
  forall content w,
    skipws (list_ascii_of_string content) = [] ->
    Rev2.readSelectedRetAddr (S (S fuel)) (Some content) instRetAddr cmpId [] w
    = Some ([(instRetAddr, cmpId)], w).
Proof.
  intros Hg Hs.
  assert (Hloop : forall s0 reg0,
            good s0 = true -> skipws (rdbuf s0) = [] ->
            Rev2.readLoop (S (S fuel)) (s0, instRetAddr, cmpId, reg0)
            = Some (Rev2.emplace (instRetAddr, cmpId) reg0)).
  { intros s0 reg0 Hg0 Hs0. cbn [Rev2.readLoop].
    rewrite (good_eofbit _ Hg0). unfold Rev2.readBody.
    rewrite (extract_only_space _ _ _ _ Hg0 Hs0).
    rewrite extract_not_good by reflexivity. reflexivity. }
  split; [apply Hloop; assumption|].
  intros content w Hblank. unfold Rev2.readSelectedRetAddr.
  rewrite (Hloop (ifstream_open (Some content)) [] (good_ifstream_open content) Hblank).
  reflexivity.
Qed.

Lemma Rev2_blank_remainder_emplaces_again_witness :
  Rev2.readSelectedRetAddr 2 (Some "
"%string) 0xdead 0xbeef [] emptyWorld
  = Some ([(0xdead, 0xbeef)], emptyWorld).
Proof.
  apply (proj2 (Rev2_blank_remainder_emplaces_again 0
                  (ifstream_open (Some ""%string)) 0xdead 0xbeef [] eq_refl eq_refl)).
  reflexivity.
Defined.

Lemma Rev2_readLoop_stuck fuel : forall s a c reg,
  failbit s = true -> eofbit s = false -> Rev2.readLoop fuel (s, a, c, reg) = None.
Proof.
  induction fuel as [|fuel IH]; intros s a c reg Hf He; [reflexivity|].
  cbn [Rev2.readLoop]. rewrite He. unfold Rev2.readBody.
  assert (Hg : good s = false) by (unfold good; rewrite Hf; reflexivity).
  rewrite (extract_not_good _ _ _ _ Hg).
  rewrite extract_not_good by reflexivity.
  cbn [eofbit rdbuf]. apply IH; [reflexivity | exact He].
Qed.

Lemma Rev1_readLoop_stuck fuel : forall s a reg,
  failbit s = true -> eofbit s = false -> Rev1.readLoop fuel (s, a, reg) = None.
Proof.
  induction fuel as [|fuel IH]; intros s a reg Hf He; [reflexivity|].
  cbn [Rev1.readLoop]. rewrite He. unfold Rev1.readBody.
  assert (Hg : good s = false) by (unfold good; rewrite Hf; reflexivity).
  rewrite (extract_not_good _ _ _ _ Hg).
  apply IH; [reflexivity | exact He].
Qed.

Lemma dropSign_not_sign ch rest :
  ch <> "-"%char -> ch <> "+"%char -> dropSign (ch :: rest) = (false, ch :: rest).
Proof.
  intros Hm Hp. unfold dropSign.
  apply Ascii.eqb_neq in Hm. apply Ascii.eqb_neq in Hp. rewrite Hm, Hp.
  reflexivity.
Qed.

Lemma dropHexPrefix_not_digit base ch rest :
  digitValue 16 ch = None -> dropHexPrefix base (ch :: rest) = ch :: rest.
Proof.
  intros Hd. unfold dropHexPrefix.
  destruct ch as [[] [] [] [] [] [] [] []]; try reflexivity.
  vm_compute in Hd. discriminate Hd.
Qed.

Lemma extract_hex_malformed s old ch rest :
  good s = true -> skipws (rdbuf s) = ch :: rest ->
  digitValue 16 ch = None -> ch <> "-"%char -> ch <> "+"%char ->
  extract 16 SIZE_MAX s old
  = ({| failbit := true; eofbit := false; rdbuf := ch :: rest |}, 0).
Proof.
  intros Hg Hs Hd Hm Hp. unfold extract. rewrite Hg, Hs. cbn [negb].
  rewrite (dropSign_not_sign _ _ Hm Hp).
  rewrite (dropHexPrefix_not_digit _ _ _ Hd). cbn [digits]. rewrite Hd.
  reflexivity.
Qed.

(** X17. Once the stream has [failbit] set while [eofbit] is clear, the
    loop can never end, in either revision: no later extraction reads
    anything, so [eofbit] stays clear. A file in which the first thing after
    the leading white space is neither a hexadecimal digit nor a sign brings
    this about at the first extraction: [readSelectedRetAddr] does not
    return. (A sign is read as part of the number, so a file that starts
    with one is not of this kind.) *)
Theorem readSelectedRetAddr_malformed_never_returns (fuel : nat)
  (instRetAddr cmpId : Z) :
  (forall s reg,
     failbit s = true -> eofbit s = false ->
     Rev2.readLoop fuel (s, instRetAddr, cmpId, reg) = None /\
     Rev1.readLoop fuel (s, instRetAddr, map fst reg) = None) /\
  (forall content ch rest w,
     skipws (list_ascii_of_string content) = ch :: rest ->
     digitValue 16 ch = None -> ch <> "-"%char -> ch <> "+"%char ->
     Rev2.readSelectedRetAddr fuel (Some content) instRetAddr cmpId [] w = None /\
     Rev1.readSelectedRetAddr fuel (Some content) instRetAddr [] w = None).
Proof.
  split.
  - intros s reg Hf He. split;
      [apply Rev2_readLoop_stuck | apply Rev1_readLoop_stuck]; assumption.
  - intros content ch rest w Hs Hd Hm Hp.
    unfold Rev2.readSelectedRetAddr, Rev1.readSelectedRetAddr.
    destruct fuel as [|fuel]; [split; reflexivity|].
    cbn [Rev2.readLoop Rev1.readLoop].
    change (eofbit (ifstream_open (Some content))) with false. cbv iota.
    unfold Rev2.readBody, Rev1.readBody.
    rewrite (extract_hex_malformed _ _ _ _ (good_ifstream_open content) Hs Hd Hm Hp).
    rewrite extract_not_good by reflexivity.
    rewrite Rev2_readLoop_stuck by reflexivity.
    rewrite Rev1_readLoop_stuck by reflexivity.
    split; reflexivity.
Qed.

Lemma readSelectedRetAddr_malformed_never_returns_witness :
  Rev2.readSelectedRetAddr 100 (Some "# sites"%string) 0 0 [] emptyWorld = None /\
  Rev1.readSelectedRetAddr 100 (Some "# sites"%string) 0 [] emptyWorld = None.
Proof.
  apply (proj2 (readSelectedRetAddr_malformed_never_returns 100 0 0)
           "# sites"%string "#"%char (list_ascii_of_string " sites") emptyWorld);
    [reflexivity | reflexivity | discriminate | discriminate].
Defined.

(** X18. [Rev2], a file that holds one hexadecimal number and no id: the
    address is read up to the end of the file, the extraction of the id
    finds the stream at its end and reads nothing, and the site is
    registered with whatever [cmpId] held - the uninitialised value, not
    0. *)
Theorem Rev2_missing_id_keeps_old_value (fuel : nat) (content : string)
  (address instRetAddr cmpId : Z) (w : World) :
  digits 16 0 false (dropHexPrefix 16 (skipws (list_ascii_of_string content)))
    = (Some address, []) ->
  address <= SIZE_MAX ->
  Rev2.readSelectedRetAddr (S (S fuel)) (Some content) instRetAddr cmpId [] w
  = Some ([(address, cmpId)], w).
Proof.
  intros Hd Hmax. unfold Rev2.readSelectedRetAddr.
  cbn [Rev2.readLoop].
  change (eofbit (ifstream_open (Some content))) with false. cbv iota.
  unfold Rev2.readBody.
  assert (He : extract 16 SIZE_MAX (ifstream_open (Some content)) instRetAddr
               = ({| failbit := false; eofbit := true; rdbuf := [] |}, address)).
  { unfold extract. rewrite good_ifstream_open. cbn [negb rdbuf ifstream_open].
    destruct (skipws (list_ascii_of_string content)) as [|ch rest] eqn:Hs;
      [discriminate Hd|].
    assert (Hsign : dropSign (ch :: rest) = (false, ch :: rest)).
    { apply dropSign_not_sign; intros ->; cbn in Hd; discriminate Hd. }
    rewrite Hsign, Hd. cbn [is_nil].
    assert (Hlt : (SIZE_MAX <? address) = false) by (apply Z.ltb_ge; exact Hmax).
    rewrite Hlt. reflexivity. }
  rewrite He. rewrite extract_not_good by reflexivity. reflexivity.
Qed.

Lemma Rev2_missing_id_keeps_old_value_witness :
  Rev2.readSelectedRetAddr 2 (Some "0x1000"%string) 0 0xbeef [] emptyWorld
  = Some ([(0x1000, 0xbeef)], emptyWorld).
Proof.
  apply (Rev2_missing_id_keeps_old_value 0 "0x1000"%string 0x1000 0 0xbeef emptyWorld).
  - reflexivity.
  - vm_compute. discriminate.
Defined.

(** ** The test-case directory *)

Lemma testbit_0x1fd_high n : 9 <= n -> Z.testbit 0x1fd n = false.
Proof.
  intros Hn. apply Z.bits_above_log2; [lia|].
  change (Z.log2 0x1fd) with 8. lia.
Qed.

(** X19. [initTestcaseDirectory]: when the directory cannot be created
    nothing is handed to [chmod] (the process exits); otherwise the mode is
    [0775] without the bits of the umask: it grants no permission the umask
    withholds, none outside [rwxrwxr-x], and so never write access to
    others. *)
Theorem initTestcaseDirectory_mode (outputDirectory : string) (m : Z) :
  initTestcaseDirectory outputDirectory true m = None /\
  exists mode,
    initTestcaseDirectory outputDirectory false m
      = Some ((outputDirectory ++ "/testcase-")%string, mode) /\
    Z.land mode m = 0 /\
    Z.land mode 0x1fd = mode /\
    Z.testbit mode 1 = false /\
    0 <= mode <= 0x1fd.
Proof.
  split; [reflexivity|]. eexists. split; [reflexivity|].
  set (mode := Z.land 0x1fd (Z.lxor m (Z.ones 32))).
  assert (Hbit : forall n, 0 <= n ->
            Z.testbit mode n = Z.testbit 0x1fd n && negb (Z.testbit m n)).
  { intros n Hn. unfold mode. rewrite Z.land_spec, Z.lxor_spec.
    destruct (Z_lt_le_dec n 32) as [Hlt | Hge].
    - rewrite Z.ones_spec_low by lia. rewrite xorb_true_r. reflexivity.
    - rewrite testbit_0x1fd_high by lia. reflexivity. }
  split; [|split; [|split]].
  - apply Z.bits_inj'. intros n Hn.
    rewrite Z.land_spec, Hbit, Z.bits_0 by exact Hn.
    destruct (Z.testbit 0x1fd n), (Z.testbit m n); reflexivity.
  - apply Z.bits_inj'. intros n Hn.
    rewrite Z.land_spec, Hbit by exact Hn.
    destruct (Z.testbit 0x1fd n), (Z.testbit m n); reflexivity.
  - rewrite Hbit by lia. reflexivity.
  - assert (H0 : 0 <= mode) by (apply Z.land_nonneg; left; lia).
    split; [exact H0|].
    assert (Hdisj : Z.land mode (Z.lxor 0x1fd mode) = 0).
    { apply Z.bits_inj'. intros n Hn.
      rewrite Z.land_spec, Z.lxor_spec, Hbit, Z.bits_0 by exact Hn.
      destruct (Z.testbit 0x1fd n), (Z.testbit m n); reflexivity. }
    apply Z.add_nocarry_lxor in Hdisj.
    rewrite (Z.lxor_comm 0x1fd mode) in Hdisj.
    rewrite <- Z.lxor_assoc, Z.lxor_nilpotent, Z.lxor_0_l in Hdisj.
    assert (Hd : 0 <= Z.lxor mode 0x1fd) by (apply Z.lxor_nonneg; split; intros; lia).
    lia.
Qed.

(** ** When the hook returns *)

(** X20. With an engine that keeps to its contract on the observed branch,
    the hook of [Rev2] returns: the state is live and in symbolic mode and,
    where the simplified condition is not a constant and a site matches, the
    condition evaluates to a constant under the concrete assignment, an
    answer of the solver has one value per symbolic object, and the clone
    accepts the alternate-path constraint. Nothing is asked of the engine on
    other states or constraints. None of the fatal exits is reached,
    forking is off on return and the engine's store is as before. *)
Theorem Rev2_hook_returns_with_a_sound_engine `{Engine} state st cond allow t w :
  heap w !! state = Some st -> isRunningConcrete st = false ->
  (isConstantExpr (simplifyExpr st cond) = false ->
   is_Some (find (Rev2.siteMatches (getPc st)) (Rev2.retAddr t)) ->
   engineBehaves st w cond) ->
  exists t' w',
    Rev2.onStateForkDecide state cond allow t w = Returns (t', w', false) /\
    heap w' = heap w.
Proof.
  intros Hst Hrc Heng.
  destruct (Rev2_hook_returns_when_engine_behaves state st cond allow t w
              Hst Hrc Heng) as [[[t' w'] b] Hret].
  pose proof (Rev2_hook_returns _ _ _ _ _ _ _ _ Hret) as [-> _].
  exists t', w'. split; [exact Hret|].
  exact (Rev2_hook_heap _ _ _ _ _ _ _ _ Hret).
Qed.

Lemma Rev2_hook_returns_with_a_sound_engine_witness :
  addConstraint (Engine := strictEngine) (stateAt 0x1005) (ConstantExpr 0 ExprBool)
    = false /\
  exists t' w',
    Rev2.onStateForkDecide (H := strictEngine) 1%positive condX true
      (Rev2.initialized oneSite) (worldWith (stateAt 0x1005))
    = Returns (t', w', false) /\
    heap w' = heap (worldWith (stateAt 0x1005)).
Proof.
  split; [reflexivity|].
  apply (Rev2_hook_returns_with_a_sound_engine (H := strictEngine) 1%positive
           (stateAt 0x1005) condX true (Rev2.initialized oneSite)
           (worldWith (stateAt 0x1005))).
  - reflexivity.
  - reflexivity.
  - intros _ _. exists 1, ExprBool. split; [reflexivity|].
    intros vals Hq. cbn in Hq. inversion Hq; subst vals.
    split; [reflexivity|]. intros a _. reflexivity.
Defined.
